(** * puml2csv: a shallow embedding of [src/tool/puml2csv.py]

    The script parses a PlantUML entity diagram, infers foreign-key columns
    from the relationship connectors, and writes one CSV of synthetic rows per
    entity plus one join table per many-to-many edge.

    Modelling choices.
    - Python [str] is [string]; the text is taken to be ASCII, so
      [str.lower], [str.strip] and the regular expression class [\s] act on
      the ASCII letters and the ASCII white space only.
    - Python [int] is [Z].
    - A [dict] is an association list with distinct keys kept in insertion
      order (iteration order matters: it fixes the order of the files and the
      first match in [pick_pk_for_ref]).
    - The module [random] is an explicit generator state threaded through
      every call, in program order.
    - An unhandled exception is a [fault]; a run yields the files written
      so far and, possibly, the fault that stopped it. *)

From Stdlib Require Import List String Ascii ZArith Lia Bool Arith.
From Stdlib Require Import Numbers.DecimalString.
From Stdlib Require Numbers.DecimalZ.
Import ListNotations.
Open Scope string_scope.
Open Scope list_scope.
Open Scope nat_scope.

Set Implicit Arguments.

(* ------------------------------------------------------------------ *)
(** ** Python string operations *)

Module Py.

(** [str.isspace] on ASCII: TAB..CR, FS..US and the blank. *)
Definition is_space (a : ascii) : bool :=
  let n := nat_of_ascii a in
  ((9 <=? n) && (n <=? 13)) || ((28 <=? n) && (n <=? 32)).

(** The class [[A-Za-z0-9_]]. *)
Definition is_word (a : ascii) : bool :=
  let n := nat_of_ascii a in
  ((65 <=? n) && (n <=? 90)) || ((97 <=? n) && (n <=? 122))
  || ((48 <=? n) && (n <=? 57)) || (n =? 95).

Definition lower_ascii (a : ascii) : ascii :=
  let n := nat_of_ascii a in
  if (65 <=? n) && (n <=? 90) then ascii_of_nat (n + 32) else a.

Definition upper_ascii (a : ascii) : ascii :=
  let n := nat_of_ascii a in
  if (97 <=? n) && (n <=? 122) then ascii_of_nat (n - 32) else a.

Fixpoint smap (f : ascii -> ascii) (s : string) : string :=
  match s with
  | EmptyString => EmptyString
  | String a s' => String (f a) (smap f s')
  end.

(** [s.lower()] and [s.upper()]. *)
Definition lower (s : string) : string := smap lower_ascii s.
Definition upper (s : string) : string := smap upper_ascii s.

Fixpoint drop_while (p : ascii -> bool) (s : string) : string :=
  match s with
  | EmptyString => EmptyString
  | String a s' => if p a then drop_while p s' else s
  end.

Fixpoint take_while (p : ascii -> bool) (s : string) : string :=
  match s with
  | EmptyString => EmptyString
  | String a s' => if p a then String a (take_while p s') else EmptyString
  end.

Fixpoint rev_onto (s acc : string) : string :=
  match s with
  | EmptyString => acc
  | String a s' => rev_onto s' (String a acc)
  end.

Definition srev (s : string) : string := rev_onto s EmptyString.

(** [s.strip()]. *)
Definition strip (s : string) : string :=
  srev (drop_while is_space (srev (drop_while is_space s))).

(** [s.startswith(p)] and [s.endswith(p)]. *)
Definition startswith (s p : string) : bool := String.prefix p s.
Definition endswith (s p : string) : bool := String.prefix (srev p) (srev s).

(** [p in s] for strings. *)
Fixpoint contains (s p : string) : bool :=
  String.prefix p s ||
  match s with
  | EmptyString => false
  | String _ s' => contains s' p
  end.

Fixpoint sdrop (n : nat) (s : string) : string :=
  match n, s with
  | O, _ => s
  | S n', String _ s' => sdrop n' s'
  | S _, EmptyString => EmptyString
  end.

Fixpoint stake (n : nat) (s : string) : string :=
  match n, s with
  | S n', String a s' => String a (stake n' s')
  | _, _ => EmptyString
  end.

(** [s[:-n]]. *)
Definition drop_last (n : nat) (s : string) : string :=
  stake (String.length s - n) s.

(** [s.split(sep, 1)[0]] for a one-character [sep]: the text before the
    first [sep], or all of [s]. *)
Fixpoint before_first (sep : ascii) (s : string) : string :=
  match s with
  | EmptyString => EmptyString
  | String a s' => if Ascii.eqb a sep then EmptyString
                   else String a (before_first sep s')
  end.

(** [re.split(r'[...]+', s)]: cut at every maximal run of separators; a
    run at either end leaves an empty piece there. *)
Fixpoint split_runs (sep : ascii -> bool) (s cur : string) (in_run : bool)
  : list string :=
  match s with
  | EmptyString => [cur]
  | String a s' =>
      if sep a then
        if in_run then split_runs sep s' cur true
        else cur :: split_runs sep s' EmptyString true
      else split_runs sep s' (cur ++ String a EmptyString)%string false
  end.

Definition re_split (sep : ascii -> bool) (s : string) : list string :=
  split_runs sep s EmptyString false.

(** [str(n)] for an integer. *)
Definition str_of_Z (z : Z) : string := NilZero.string_of_int (Z.to_int z).

(** ["%04d" % n] for [0 <= n]. *)
Definition pad4 (z : Z) : string :=
  let s := str_of_Z z in
  (stake (4 - String.length s) "0000" ++ s)%string.

(** [x in xs] for a list of strings. *)
Definition mem (x : string) (xs : list string) : bool :=
  existsb (String.eqb x) xs.

(** [xs.index(x)]; [None] stands for the [ValueError]. *)
Fixpoint index (x : string) (xs : list string) : option nat :=
  match xs with
  | [] => None
  | y :: ys => if String.eqb y x then Some 0
               else option_map S (index x ys)
  end.

End Py.

(* ------------------------------------------------------------------ *)
(** ** Dictionaries, faults, the random generator *)

(** A Python [dict] with string keys: insertion-ordered, one entry per key. *)
Definition dict (V : Type) := list (string * V).

Fixpoint dget {V} (d : dict V) (k : string) : option V :=
  match d with
  | [] => None
  | (k', v) :: d' => if String.eqb k' k then Some v else dget d' k
  end.

(** [d[k] = v]: an existing key keeps its place, a new one goes last. *)
Fixpoint dset {V} (d : dict V) (k : string) (v : V) : dict V :=
  match d with
  | [] => [(k, v)]
  | (k', v') :: d' => if String.eqb k' k then (k', v) :: d'
                      else (k', v') :: dset d' k v
  end.

Definition keys {V} (d : dict V) : list string := map fst d.

(** Unhandled exceptions the script can raise on a readable input. *)
Inductive fault :=
| KeyError (key : string)
| NameError (name : string).

Inductive res (A : Type) :=
| Ok (a : A)
| Raise (f : fault).
Arguments Raise {A} f.

(** The state of [random]: an arbitrary sequence of draws and a cursor. *)
Record rng := mkRng { draws : nat -> nat; cursor : nat }.

Definition R (A : Type) := rng -> A * rng.
Definition retR {A} (a : A) : R A := fun g => (a, g).
Definition bindR {A B} (m : R A) (k : A -> R B) : R B :=
  fun g => k (fst (m g)) (snd (m g)).

Notation "x <- m ;; k" := (bindR m (fun x => k))
  (at level 61, m at next level, right associativity).

(** [random._randbelow(n)]. *)
Definition randbelow (n : nat) : R nat :=
  fun g => (draws g (cursor g) mod n, mkRng (draws g) (S (cursor g))).

(** [random.randint(a, b)] for [a <= b]. *)
Definition randint (a b : Z) : R Z :=
  k <- randbelow (Z.to_nat (b - a + 1)) ;; retR (a + Z.of_nat k)%Z.

(** [random.choice(l)].  Python raises [IndexError] on an empty
    sequence; every call below passes a literal pool or a list that the
    script has just tested to be non-empty, so [d] is never returned. *)
Definition choice {A} (d : A) (l : list A) : R A :=
  k <- randbelow (List.length l) ;; retR (nth k l d).

(* ------------------------------------------------------------------ *)
(** ** Semantic pools and helpers (lines 14-56) *)

Definition DOC_TITLES : list string :=
  ["AI in Education"; "Knowledge Graphs"; "Quantum Research";
   "Cloud Computing"; "Open Science"; "Machine Learning for Healthcare";
   "Semantic Web Technologies"; "Data Science for Policy"].
Definition FIRSTNAMES : list string :=
  ["Ana"; "Marko"; "Jelena"; "Petar"; "Ivana"; "Nikola"; "Maja"; "Milos";
   "Luka"; "Sara"].
Definition LASTNAMES : list string :=
  ["Petrovic"; "Garcia"; "Smith"; "Ivanov"; "Chen"; "Silva"; "Jovanovic";
   "Kovacevic"].
Definition JOURNAL_TITLES : list string :=
  ["AI Review"; "Information Systems"; "Data Science Journal";
   "Computing Advances"].
Definition EVENT_NAMES : list string :=
  ["AIConf 2025"; "Open Science Summit"; "Quantum Symposium";
   "Cloud Expo Europe"].
Definition GEO_NAMES : list string :=
  ["Serbia"; "Germany"; "USA"; "France"; "Spain"].
Definition GEO_CODES : dict string :=
  [("Serbia", "RS"); ("Germany", "DE"); ("USA", "US"); ("France", "FR");
   ("Spain", "ES")].
Definition GRANT_NAMES : list string :=
  ["HorizonEurope Project X"; "National Science Grant Y";
   "AI Innovation Programme"; "Climate Research Initiative"].
Definition INVESTIGATOR_ROLES : list string :=
  ["Principal Investigator"; "Co-Principal Investigator"; "Investigator"].
Definition ADVISORY_TYPES : list string :=
  ["Advising"; "Faculty Mentoring"; "Graduate Advising";
   "Postdoc or Fellow Advising"; "Undergraduate Advising"].
Definition CITATION_SOURCES : list string :=
  ["OpenAlex"; "Web of Science"; "Scopus"].
Definition POSITION_TYPES : list string :=
  ["faculty position"; "non-academic position"].
Definition POSITION_TITLES : list string :=
  ["full professor"; "librarian"; "developer"].
Definition ORG_TYPES : list string :=
  ["Faculty"; "Research Center"; "Research Institute"; "College"; "NGO"].
Definition ORG_NAMES : list string :=
  ["University of Belgrade"; "Faculty of Science"; "Institute of AI";
   "Research Center VINCA"; "Open Data Lab"].

Definition sjoin (sep : string) (l : list string) : string :=
  String.concat sep l.

Definition make_orcid : R string :=
  a <- randint 0 9999 ;; b <- randint 0 9999 ;;
  c <- randint 0 9999 ;; d <- randint 0 9999 ;;
  retR (sjoin "-" [Py.pad4 a; Py.pad4 b; Py.pad4 c; Py.pad4 d]).

Definition make_issn : R string :=
  a <- randint 1000 9999 ;; b <- randint 1000 9999 ;;
  retR (Py.pad4 a ++ "-" ++ Py.pad4 b)%string.

Definition ror_alphabet : list ascii :=
  list_ascii_of_string "0123456789abcdefghijklmnopqrstuvwxyz".

Fixpoint choices (n : nat) : R string :=
  match n with
  | O => retR EmptyString
  | S n' => a <- choice "0"%char ror_alphabet ;; s <- choices n' ;;
            retR (String a s)
  end.

Definition make_ror : R string :=
  suffix <- choices 9 ;; retR ("https://ror.org/" ++ suffix)%string.

Definition abbrev_sep (a : ascii) : bool :=
  Py.is_space a || Ascii.eqb a "_" || Ascii.eqb a "-".

Definition initial (p : string) : string :=
  match p with
  | EmptyString => EmptyString
  | String a _ => String (Py.upper_ascii a) EmptyString
  end.

Definition make_abbrev (name : string) : string :=
  let parts := Py.re_split abbrev_sep name in
  if List.length parts =? 1 then Py.upper (Py.stake 4 name)
  else Py.stake 6 (String.concat "" (map initial parts)).

(* ------------------------------------------------------------------ *)
(** ** PUML parsing (lines 59-90) *)

Record relation := mkRel { left : string; connector : string; right : string }.

Definition entities := dict (list string).

Record pstate := mkP {
  p_entities : entities;
  p_relations : list relation;
  p_current : option string
}.

(** [re.match(r'^entity\s+([A-Za-z0-9_]+)', line)], giving group 1. *)
Definition match_entity (line : string) : option string :=
  if Py.startswith line "entity" then
    let rest := Py.sdrop 6 line in
    let after := Py.drop_while Py.is_space rest in
    if String.length after <? String.length rest then
      match Py.take_while Py.is_word after with
      | EmptyString => None
      | name => Some name
      end
    else None
  else None.

(** [entities[current].append(col)]; [current] is always a key, it was
    stored when the block was opened. *)
Definition append_col (ents : entities) (ent col : string) : entities :=
  match dget ents ent with
  | Some cols => dset ents ent (cols ++ [col])
  | None => ents
  end.

(** The test [if '--' in line] at the end of the loop body. *)
Definition parse_relation (st : pstate) (line : string) : pstate :=
  if Py.contains line "--" then
    match Py.re_split Py.is_space line with
    | l :: c :: r :: _ =>
        mkP (p_entities st) (p_relations st ++ [mkRel l c r]) (p_current st)
    | _ => st
    end
  else st.

(** One iteration of [for raw in f]. *)
Definition parse_line (st : pstate) (raw : string) : pstate :=
  let line := Py.strip raw in
  if String.eqb line "" || Py.startswith line "'" then st
  else
    match match_entity line with
    | Some name =>
        mkP (dset (p_entities st) name []) (p_relations st) (Some name)
    | None =>
        match p_current st with
        | Some cur =>
            if Py.startswith line "}" then
              mkP (p_entities st) (p_relations st) None
            else if Py.contains line ":" then
              let col := Py.strip (Py.before_first ":" line) in
              if negb (String.eqb col "") && negb (String.eqb col "--")
              then mkP (append_col (p_entities st) cur col)
                       (p_relations st) (p_current st)
              else st
            else parse_relation st line
        | None => parse_relation st line
        end
    end.

Definition parse_from (st : pstate) (lines : list string) : pstate :=
  fold_left parse_line lines st.

(** [parse_puml], on the lines of the file. *)
Definition parse_puml (lines : list string) : entities * list relation :=
  let st := parse_from (mkP [] [] None) lines in
  (p_entities st, p_relations st).

(* ------------------------------------------------------------------ *)
(** ** Association entities and connectors (lines 93-108) *)

Definition bump (degree : dict nat) (k : string) : dict nat :=
  dset degree k (match dget degree k with Some n => n | None => 0 end + 1).

Definition degrees (rels : list relation) : dict nat :=
  fold_left (fun d r => bump (bump d (left r)) (right r)) rels [].

Definition degree_get (degree : dict nat) (k : string) : nat :=
  match dget degree k with Some n => n | None => 0 end.

(** The returned set, as the list of its members. *)
Definition detect_assoc_entities (ents : entities) (rels : list relation)
  : list string :=
  let degree := degrees rels in
  map fst
    (filter (fun ec => (0 <? List.length (snd ec)) &&
                       (2 <=? degree_get degree (fst ec))) ents).

(** The relationship degree in the words of the specification: the
    number of endpoint occurrences of [ent] over all edges. *)
Definition endpoint_count (rels : list relation) (ent : string) : nat :=
  List.length
    (filter (String.eqb ent) (flat_map (fun r => [left r; right r]) rels)).

Definition is_mn (conn : string) : bool :=
  Py.contains conn "}" && Py.contains conn "{".

Definition is_1n (conn : string) : bool :=
  Py.contains conn "||--o{" || Py.contains conn "|o--o{".

(* ------------------------------------------------------------------ *)
(** ** Schema augmentation (lines 119-146) *)

(** [if fk_col not in entities[target]: entities[target].append(fk_col)];
    the subscript raises [KeyError] for an undeclared entity. *)
Definition add_fk (ents : entities) (target fk_col : string) : res entities :=
  match dget ents target with
  | None => Raise (KeyError target)
  | Some cols =>
      Ok (if Py.mem fk_col cols then ents
          else dset ents target (cols ++ [fk_col]))
  end.

Definition fk_name (ent : string) : string := (Py.lower ent ++ "_id")%string.

(** The body of [for r in relations]. *)
Definition augment_edge (assoc : list string) (ents : entities) (r : relation)
  : res entities :=
  if is_mn (connector r) then Ok ents
  else if Py.mem (left r) assoc || Py.mem (right r) assoc then Ok ents
  else if Py.contains (connector r) "|o--o{" then
    add_fk ents (left r) (fk_name (right r))
  else if Py.contains (connector r) "||--o{" then
    add_fk ents (right r) (fk_name (left r))
  else if String.eqb (left r) "Document" &&
          Py.mem (right r) ["Journal"; "Event"] then
    add_fk ents (left r) (fk_name (right r))
  else add_fk ents (right r) (fk_name (left r)).

(** The loop; a fault leaves the columns appended so far. *)
Fixpoint augment (assoc : list string) (ents : entities) (rels : list relation)
  : entities * option fault :=
  match rels with
  | [] => (ents, None)
  | r :: rs =>
      match augment_edge assoc ents r with
      | Ok ents' => augment assoc ents' rs
      | Raise f => (ents, Some f)
      end
  end.

(* ------------------------------------------------------------------ *)
(** ** Primary-key sequences (lines 148-165) *)

Fixpoint first_id_col (cols : list string) : option string :=
  match cols with
  | [] => None
  | c :: cs => if Py.endswith (Py.lower c) "_id" then Some c
               else first_id_col cs
  end.

(** The variable [ent_id_col] at the end of the loop body. *)
Definition ent_id_col (ent : string) (cols : list string) : option string :=
  let lowered := map Py.lower cols in
  let candidate := fk_name ent in
  match Py.index candidate lowered with
  | Some i => nth_error cols i
  | None => first_id_col cols
  end.

(** [[i+1 for i in range(rows)]]. *)
Definition one_to (rows : Z) : list Z :=
  map (fun i => Z.of_nat i + 1)%Z (seq 0 (Z.to_nat rows)).

(** The sequence stored for one entity; [if ent_id_col] is false for
    [None] and for the empty string. *)
Definition pk_seq (ent : string) (cols : list string) (rows : Z) : list Z :=
  match ent_id_col ent cols with
  | Some c => if String.eqb c "" then [] else one_to rows
  | None => []
  end.

Definition pk_values_of (ents : entities) (rows : Z) : dict (list Z) :=
  fold_left (fun pk ec => dset pk (fst ec) (pk_seq (fst ec) (snd ec) rows))
            ents [].

(** [pk_values.get(ent)], read for its truth value and its items. *)
Definition pk_get (pk : dict (list Z)) (ent : string) : list Z :=
  match dget pk ent with Some vals => vals | None => [] end.

(* ------------------------------------------------------------------ *)
(** ** Row synthesis (lines 167-380, 406-430) *)

(** A CSV cell.  [VAmount h] is the float [round(u, 2) * 1_000_000] of the
    grant rule, carried as the number [h] of hundredths of a million. *)
Inductive value :=
| VInt (z : Z)
| VStr (s : string)
| VAmount (hundredths : Z).

Record person := mkPerson {
  person_id : Z;
  firstname : string;
  lastname : string;
  other_name : string;
  orcid : string
}.

Definition make_person (pid : Z) : R person :=
  fn <- choice "" FIRSTNAMES ;; ln <- choice "" LASTNAMES ;;
  on <- choice "" FIRSTNAMES ;; oid <- make_orcid ;;
  retR (mkPerson pid fn ln on oid).

Fixpoint make_persons_loop (pids : list Z) (persons : dict person)
  : R (dict person) :=
  match pids with
  | [] => retR persons
  | pid :: rest =>
      p <- make_person pid ;;
      make_persons_loop rest (dset persons (Py.str_of_Z pid) p)
  end.

(** The registry [persons], keyed by [str(pid)]. *)
Definition make_persons (ents : entities) (pk : dict (list Z))
  : R (dict person) :=
  match dget ents "Person" with
  | Some _ =>
      make_persons_loop
        (match dget pk "Person" with Some v => v | None => [1%Z] end) []
  | None => retR []
  end.

(** The closure [pick_pk]. *)
Definition pick_pk (pk : dict (list Z)) (rows : Z) (ent : string) : R Z :=
  match pk_get pk ent with
  | [] => randint 1 (Z.max 1 rows)
  | vals => choice 0%Z vals
  end.

(** [pick_pk_for_ref]: the first entity, in dictionary order, whose
    lowered name is [ref] and whose sequence is not empty. *)
Fixpoint pick_pk_for_ref (pk_values : dict (list Z)) (ref : string) (rows : Z)
  : R Z :=
  match pk_values with
  | [] => randint 1 (Z.max 1 rows)
  | (k, vals) :: rest =>
      if String.eqb (Py.lower k) (Py.lower ref) then
        match vals with
        | [] => pick_pk_for_ref rest ref rows
        | _ => choice 0%Z vals
        end
      else pick_pk_for_ref rest ref rows
  end.

Definition synth_generic_value (col_lower : string) : R value :=
  if Py.contains col_lower "name" then
    s <- choice "" (ORG_NAMES ++ FIRSTNAMES) ;; retR (VStr s)
  else if Py.contains col_lower "title" then
    s <- choice "" DOC_TITLES ;; retR (VStr s)
  else if Py.contains col_lower "doi" then
    a <- randint 100 999 ;; b <- randint 1000 9999 ;;
    retR (VStr ("10." ++ Py.str_of_Z a ++ "/" ++ Py.str_of_Z b)%string)
  else if Py.contains col_lower "issn" then
    s <- make_issn ;; retR (VStr s)
  else if Py.contains col_lower "isbn" then
    n <- randint 1000000000 9999999999 ;; retR (VStr (Py.str_of_Z n))
  else if Py.contains col_lower "page" || Py.contains col_lower "volume"
          || Py.contains col_lower "issue" then
    n <- randint 1 200 ;; retR (VInt n)
  else
    n <- randint 1 100 ;;
    retR (VStr (col_lower ++ "_" ++ Py.str_of_Z n)%string).

(** [str(s) == str(advisor_val)] for an integer [s]; the text of a float
    has a decimal point and never equals that of an integer. *)
Definition same_text (s : Z) (v : value) : bool :=
  match v with
  | VInt a => Z.eqb s a
  | VStr t => String.eqb (Py.str_of_Z s) t
  | VAmount _ => false
  end.

(** The [while] loop of the student rule: at most 10 new picks. *)
Fixpoint resample (attempts_left : nat) (pick : R Z) (advisor_val : option value)
  (s : Z) : R Z :=
  match attempts_left, advisor_val with
  | S n, Some a =>
      if same_text s a then s' <- pick ;; resample n pick advisor_val s'
      else retR s
  | _, _ => retR s
  end.

Definition ok {A} (m : R A) : rng -> res (A * rng) := fun g => Ok (m g).

(** The two tests that guard the investigator-role rule (lines 309-311):
    the entity is named [investigatorship] in any letter case, or it is
    [Contributorship] and the column is [roletype]; and the lowered column
    name contains [role]. *)
Definition role_rule (ent cl : string) : bool :=
  (String.eqb (Py.lower ent) "investigatorship"
   || (String.eqb ent "Contributorship" && String.eqb cl "roletype"))
  && Py.contains cl "role".

(** The columns of [Person] whose rule reads an undefined global. *)
Definition faulty_column (c : string) : Prop :=
  Py.lower c = "preferred_title" \/ Py.lower c = "type".

Section Cell.

Variable pk_values : dict (list Z).
Variable persons : dict person.
Variable rows : Z.
Variable ent : string.
Variable cols : list string.
Variable idx : nat.

(** The body of [for c in cols]: the value appended to [row], the cells
    already built for this line.  Nested tests of the script are written as
    one chain; a block whose inner tests all fail falls through to the next
    rule, as in the source. *)
Definition gen_cell (row : list value) (c : string) : rng -> res (value * rng) :=
  let cl := Py.lower c in
  let lowered := map Py.lower cols in
  let own := pk_get pk_values ent in
  if String.eqb cl (fk_name ent) && negb (0 =? List.length own) then
    ok (retR (VInt (nth (idx mod List.length own) own 0%Z)))
  else if String.eqb ent "Authorship" && String.eqb cl "display_author_name" then
    ok (pid <- pick_pk pk_values rows "Person" ;;
        match dget persons (Py.str_of_Z pid) with
        | Some p => retR (VStr (firstname p ++ " " ++ lastname p)%string)
        | None =>
            fn <- choice "" FIRSTNAMES ;; ln <- choice "" LASTNAMES ;;
            retR (VStr (fn ++ " " ++ ln)%string)
        end)
  else if String.eqb ent "Citations" && Py.mem cl ["source"; "citation_source"] then
    ok (s <- choice "" CITATION_SOURCES ;; retR (VStr s))
  else if String.eqb ent "Citations" && Py.mem cl ["number"; "citation_number"] then
    ok (n <- randint 1 500 ;; retR (VInt n))
  else if String.eqb ent "Document" && String.eqb cl "page_start" then
    ok (pstart <- randint 1 200 ;; retR (VInt pstart))
  else if String.eqb ent "Document" && String.eqb cl "page_end" then
    (* In a Document line the cell under [page_start] is the integer the
       previous rule appended, so [int(...)] returns it unchanged. *)
    match Py.index "page_start" lowered with
    | Some ps_idx =>
        match nth_error row ps_idx with
        | Some (VInt start_val) =>
            ok (d <- randint 1 30 ;; retR (VInt (start_val + d)%Z))
        | _ => ok (n <- randint 2 400 ;; retR (VInt n))
        end
    | None => ok (n <- randint 2 400 ;; retR (VInt n))
    end
  else if String.eqb ent "Advisorship" && Py.mem "advisor_person_id" lowered
          && String.eqb cl "advisor_person_id" then
    ok (pr <- pick_pk pk_values rows "Person" ;; retR (VInt pr))
  else if String.eqb ent "Advisorship" && Py.mem "student_person_id" lowered
          && String.eqb cl "student_person_id" then
    let advisor_val :=
      match Py.index "advisor_person_id" lowered with
      | Some aidx => nth_error row aidx
      | None => None
      end in
    ok (s <- pick_pk pk_values rows "Person" ;;
        s' <- resample 10 (pick_pk pk_values rows "Person") advisor_val s ;;
        retR (VInt s'))
  else if String.eqb ent "Advisorship" && String.eqb cl "advising_relationship_type" then
    ok (s <- choice "" ADVISORY_TYPES ;; retR (VStr s))
  else if String.eqb ent "Event" && String.eqb cl "name" then
    ok (s <- choice "" EVENT_NAMES ;; retR (VStr s))
  else if String.eqb ent "Geolocation" && String.eqb cl "name" then
    ok (s <- choice "" GEO_NAMES ;; retR (VStr s))
  else if String.eqb ent "Geolocation" && String.eqb cl "code" then
    ok (name <- choice "" GEO_NAMES ;;
        retR (VStr (match dget GEO_CODES name with
                    | Some code => code
                    | None => "XX"
                    end)))
  else if String.eqb ent "Grant" && String.eqb cl "name" then
    ok (s <- choice "" GRANT_NAMES ;; retR (VStr s))
  else if String.eqb ent "Grant" && String.eqb cl "total_award_amount" then
    ok (h <- randint 50 500 ;; retR (VAmount h))
  else if role_rule ent cl then
    ok (s <- choice "" INVESTIGATOR_ROLES ;; retR (VStr s))
  else if String.eqb ent "Journal" && String.eqb cl "title" then
    ok (t <- choice "" JOURNAL_TITLES ;; retR (VStr t))
  else if String.eqb ent "Journal" && String.eqb cl "abbreviation" then
    ok (t <- choice "" JOURNAL_TITLES ;; retR (VStr (make_abbrev t)))
  else if String.eqb ent "Journal" && String.eqb cl "issn" then
    ok (s <- make_issn ;; retR (VStr s))
  else if String.eqb ent "OrganisationUnit" && String.eqb cl "abbreviation" then
    ok (n <- choice "" ORG_NAMES ;; retR (VStr (make_abbrev n)))
  else if String.eqb ent "OrganisationUnit" && String.eqb cl "ror" then
    ok (s <- make_ror ;; retR (VStr s))
  else if String.eqb ent "OrganisationUnit" && String.eqb cl "type" then
    ok (s <- choice "" ORG_TYPES ;; retR (VStr s))
  else if String.eqb ent "Person" && String.eqb cl "other_name" then
    ok (s <- choice "" FIRSTNAMES ;; retR (VStr s))
  else if String.eqb ent "Person" && String.eqb cl "preferred_title" then
    (* the global PREFERRED_TITLES is not defined anywhere *)
    fun _ => Raise (NameError "PREFERRED_TITLES")
  else if String.eqb ent "Person" && String.eqb cl "orcid" then
    ok (s <- make_orcid ;; retR (VStr s))
  else if String.eqb ent "Person" && String.eqb cl "type" then
    (* the global PERSON_TYPES is not defined anywhere *)
    fun _ => Raise (NameError "PERSON_TYPES")
  else if String.eqb ent "Position" && String.eqb cl "type" then
    ok (s <- choice "" POSITION_TYPES ;; retR (VStr s))
  else if String.eqb ent "Position" && String.eqb cl "title" then
    ok (s <- choice "" POSITION_TITLES ;; retR (VStr s))
  else if Py.mem cl ["publication_year"; "start_year"; "end_year"] then
    ok (n <- randint 1990 2025 ;; retR (VInt n))
  else if Py.endswith cl "_id" then
    ok (v <- pick_pk_for_ref pk_values (Py.drop_last 3 cl) rows ;;
        retR (VInt v))
  else ok (synth_generic_value cl).

(** [for c in cols], from the cells [row] already built. *)
Fixpoint gen_row_from (cs : list string) (row : list value) (g : rng)
  : res (list value * rng) :=
  match cs with
  | [] => Ok (row, g)
  | c :: cs' =>
      match gen_cell row c g with
      | Ok (v, g') => gen_row_from cs' (row ++ [v]) g'
      | Raise f => Raise f
      end
  end.

Definition gen_row : rng -> res (list value * rng) := gen_row_from cols [].

End Cell.

Section Rows.

Variable pk_values : dict (list Z).
Variable persons : dict person.
Variable rows : Z.
Variable ent : string.
Variable cols : list string.

(** [for idx in range(rows)], as [n] lines starting at line [idx]: the
    lines written, and the generator state or the fault that ended the
    loop. *)
Fixpoint gen_rows (n idx : nat) (g : rng) : list (list value) * res rng :=
  match n with
  | O => ([], Ok g)
  | S n' =>
      match gen_row pk_values persons rows ent cols idx g with
      | Ok (row, g') =>
          (row :: fst (gen_rows n' (S idx) g'), snd (gen_rows n' (S idx) g'))
      | Raise f => ([], Raise f)
      end
  end.

End Rows.

(** A file as handed to [csv.writer]: its name inside [out_dir], the header
    fields and the data lines.  Only the contents are modelled: a failure
    of [open] or of a write (a name the file system refuses, a full disk)
    has no counterpart here. *)
Record csv_file := mkFile {
  fname : string;
  header : list string;
  body : list (list value)
}.

(** The body of [for ent, cols in entities.items()]: the file is closed
    with what was written even when a line faults. *)
Definition write_entity (pk_values : dict (list Z)) (persons : dict person)
  (rows : Z) (ent : string) (cols : list string) (g : rng)
  : csv_file * res rng :=
  let r := gen_rows pk_values persons rows ent cols (Z.to_nat rows) 0 g in
  (mkFile (Py.lower ent ++ ".csv") cols (fst r), snd r).

Fixpoint write_entities (pk_values : dict (list Z)) (persons : dict person)
  (rows : Z) (ents : entities) (g : rng) : list csv_file * res rng :=
  match ents with
  | [] => ([], Ok g)
  | (ent, cols) :: rest =>
      match write_entity pk_values persons rows ent cols g with
      | (f, Ok g') =>
          (f :: fst (write_entities pk_values persons rows rest g'),
           snd (write_entities pk_values persons rows rest g'))
      | (f, Raise e) => ([f], Raise e)
      end
  end.

(* ------------------------------------------------------------------ *)
(** ** Join tables (lines 382-401) *)

(** [pk_values.get(ent) or [1]]. *)
Definition keys_or_one (pk_values : dict (list Z)) (ent : string) : list Z :=
  match pk_get pk_values ent with
  | [] => [1%Z]
  | vals => vals
  end.

(** [for i in range(minlen): pairs.append(...)]. *)
Definition cover_pairs (left_vals right_vals : list Z) : list (Z * Z) :=
  let minlen := Nat.min (List.length left_vals) (List.length right_vals) in
  map (fun i => (nth (i mod List.length left_vals) left_vals 0%Z,
                 nth (i mod List.length right_vals) right_vals 0%Z))
      (seq 0 minlen).

(** [while len(pairs) < rows: pairs.append(...)], [n] pairs short. *)
Fixpoint pad_pairs (n : nat) (left_vals right_vals : list Z)
  (pairs : list (Z * Z)) : R (list (Z * Z)) :=
  match n with
  | O => retR pairs
  | S n' =>
      a <- choice 0%Z left_vals ;; b <- choice 0%Z right_vals ;;
      pad_pairs n' left_vals right_vals (pairs ++ [(a, b)])
  end.

(** [l[:n]], also for a negative [n]. *)
Definition slice_to {A} (l : list A) (n : Z) : list A :=
  if (0 <=? n)%Z then firstn (Z.to_nat n) l
  else firstn (Z.to_nat (Z.of_nat (List.length l) + n)) l.

Definition join_pairs (left_vals right_vals : list Z) (rows : Z)
  : R (list (Z * Z)) :=
  let pairs := cover_pairs left_vals right_vals in
  padded <- pad_pairs (Z.to_nat (rows - Z.of_nat (List.length pairs)))
                      left_vals right_vals pairs ;;
  retR (slice_to padded rows).

Definition write_join (pk_values : dict (list Z)) (rows : Z) (r : relation)
  : R csv_file :=
  pairs <- join_pairs (keys_or_one pk_values (left r))
                      (keys_or_one pk_values (right r)) rows ;;
  retR (mkFile (Py.lower (left r) ++ "_" ++ Py.lower (right r) ++ ".csv")
               [fk_name (left r); fk_name (right r)]
               (map (fun ab => [VInt (fst ab); VInt (snd ab)]) pairs)).

Fixpoint write_joins (pk_values : dict (list Z)) (rows : Z)
  (rels : list relation) : R (list csv_file) :=
  match rels with
  | [] => retR []
  | r :: rs =>
      if is_mn (connector r) then
        f <- write_join pk_values rows r ;;
        fs <- write_joins pk_values rows rs ;; retR (f :: fs)
      else write_joins pk_values rows rs
  end.

(* ------------------------------------------------------------------ *)
(** ** The whole run (lines 110-403, 433-442) *)

(** [generate_csvs]: the files written, in order (a later file of the same
    name replaces an earlier one on disk), and the fault that stopped the
    run, if any.  The faults are those of the computation ([KeyError],
    [NameError]); the file system is taken to accept every file. *)
Definition generate_csvs (ents : entities) (rels : list relation) (rows : Z)
  (g : rng) : list csv_file * option fault :=
  let assoc := detect_assoc_entities ents rels in
  match augment assoc ents rels with
  | (_, Some f) => ([], Some f)
  | (ents', None) =>
      let pk_values := pk_values_of ents' rows in
      let ps := make_persons ents' pk_values g in
      match write_entities pk_values (fst ps) rows ents' (snd ps) with
      | (files, Raise f) => (files, Some f)
      | (files, Ok g') =>
          ((files ++ fst (write_joins pk_values rows rels g'))%list, None)
      end
  end.

(** The script's entry point on the lines of the diagram. *)
Definition main (lines : list string) (rows : Z) (g : rng)
  : list csv_file * option fault :=
  let er := parse_puml lines in
  generate_csvs (fst er) (snd er) rows g.

(* ------------------------------------------------------------------ *)
(** ** Sample diagrams and generator states *)

(** A generator whose every draw is [n]. *)
Definition const_rng (n : nat) : rng := mkRng (fun _ => n) 0.

(** A parent [Role] of an entity named [Investigatorship]. *)
Definition role_diagram : list string :=
  ["entity Role {"; "  role_id: int"; "}";
   "entity Investigatorship {"; "  investigatorship_id: int"; "}";
   "Role ||--o{ Investigatorship"].


(** An attribute declared twice. *)
Definition dup_diagram : list string :=
  ["entity A {"; "  x: int"; "  x: int"; "}"].

(** A fact table between two entities, and a plain parent-child edge. *)
Definition cites_diagram : list string :=
  ["entity Document {"; "  document_id: int"; "}";
   "entity Person {"; "  person_id: int"; "}";
   "entity Citation {"; "  citation_id: int"; "}";
   "entity Journal {"; "  journal_id: int"; "}";
   "entity Issue {"; "  issue_id: int"; "  volume: int"; "}";
   "Document ||--o{ Citation";
   "Person ||--o{ Citation";
   "Journal ||--o{ Issue"].

(** An entity with a key and one without, in a many-to-many edge. *)
Definition mn_diagram : list string :=
  ["entity A {"; "  a_id: int"; "}";
   "entity B {"; "  label: string"; "}";
   "A }o--o{ B"].

(** The diagram of the end-to-end scenario. *)
Definition person_diagram : list string :=
  ["entity Person {"; "  person_id: int"; "}";
   "entity Document {"; "  document_id: int"; "}";
   "Document ||--o{ Person"].

(** The file of an entity and of a join table when no line is written. *)
Definition header_only_entity (ec : string * list string) : csv_file :=
  mkFile (Py.lower (fst ec) ++ ".csv") (snd ec) [].

Definition header_only_join (r : relation) : csv_file :=
  mkFile (Py.lower (left r) ++ "_" ++ Py.lower (right r) ++ ".csv")
         [fk_name (left r); fk_name (right r)] [].

(** An entity opened twice. *)
Definition reopened_diagram : list string :=
  ["entity A {"; "  x: int"; "}"; "entity A {"; "  y: int"; "}"].

(** A [Person] with a [type] column and an edge to an entity that no
    block declares. *)
Definition undeclared_diagram : list string :=
  ["entity Person {"; "  person_id: int"; "  type: string"; "}";
   "Person ||--o{ Paper"].

(* ------------------------------------------------------------------ *)
(** ** Vocabulary for the statements *)

(** Every character of [s] satisfies [p]. *)
Fixpoint sforall (p : ascii -> bool) (s : string) : bool :=
  match s with
  | EmptyString => true
  | String a s' => p a && sforall p s'
  end.

(** The first test of the parser's loop body: a blank line or a comment. *)
Definition skipped_line (raw : string) : bool :=
  String.eqb (Py.strip raw) "" || Py.startswith (Py.strip raw) "'".

(** The entity an edge appends to and the column it appends, read off the
    tests of the augmentation loop; [None] when the edge is passed over. *)
Definition edge_target (assoc : list string) (r : relation)
  : option (string * string) :=
  if is_mn (connector r) then None
  else if Py.mem (left r) assoc || Py.mem (right r) assoc then None
  else if Py.contains (connector r) "|o--o{" then
    Some (left r, fk_name (right r))
  else if Py.contains (connector r) "||--o{" then
    Some (right r, fk_name (left r))
  else if String.eqb (left r) "Document" &&
          Py.mem (right r) ["Journal"; "Event"] then
    Some (left r, fk_name (right r))
  else Some (right r, fk_name (left r)).

Definition is_digit (a : ascii) : bool :=
  let n := nat_of_ascii a in (48 <=? n) && (n <=? 57).

Definition is_lower_letter (a : ascii) : bool :=
  let n := nat_of_ascii a in (97 <=? n) && (n <=? 122).

(** The shape [dddd]. *)
Definition four_digits (s : string) : bool :=
  (String.length s =? 4) && sforall is_digit s.

(** A [Document] that declares [page_start] twice. *)
Definition dup_pages_diagram : list string :=
  ["entity Document {"; "  page_start: int"; "  page_start: int";
   "  page_end: int"; "}"].

(** A generator whose draw number [k] is [v] and whose other draws are 0. *)
Definition spike_rng (k v : nat) : rng :=
  mkRng (fun n => if n =? k then v else 0) 0.

(* ================================================================== *)
(** * Properties *)

(* ------------------------------------------------------------------ *)
(** ** The model on small inputs *)

Example strip_line : Py.strip "   person_id : int  " = "person_id : int".
Proof. reflexivity. Qed.

Example split_edge :
  Py.re_split Py.is_space "Document ||--o{  Person : writes" =
  ["Document"; "||--o{"; "Person"; ":"; "writes"].
Proof. reflexivity. Qed.

Example split_leading_run : Py.re_split Py.is_space " a" = [""; "a"].
Proof. reflexivity. Qed.

Example entity_header_line :
  match_entity "entity  Person_2{" = Some "Person_2" /\
  match_entity "entityPerson {" = None /\
  match_entity "entity {" = None.
Proof. repeat split; reflexivity. Qed.

Example decimal_text :
  Py.str_of_Z 0 = "0" /\ Py.str_of_Z 120 = "120" /\
  Py.pad4 7 = "0007" /\ Py.pad4 12345 = "12345".
Proof. repeat split; reflexivity. Qed.

Example id_suffix :
  Py.endswith "person_id" "_id" = true /\ Py.endswith "id" "_id" = false /\
  Py.drop_last 3 "person_id" = "person".
Proof. repeat split; reflexivity. Qed.

Example abbreviations :
  make_abbrev "Research Center VINCA" = "RCV" /\
  make_abbrev "AI Review" = "AR" /\
  make_abbrev "Scopus" = "SCOP".
Proof. repeat split; reflexivity. Qed.

Example connectors :
  is_mn "}o--o{" = true /\ is_mn "||--o{" = false /\
  is_1n "||--o{" = true /\ is_1n "--" = false.
Proof. repeat split; reflexivity. Qed.

Example slices :
  slice_to [1; 2; 3] 2 = [1; 2] /\ slice_to [1; 2; 3] 5 = [1; 2; 3] /\
  slice_to [1; 2; 3] (-1) = [1; 2] /\ slice_to [1] (-2) = [].
Proof. repeat split; reflexivity. Qed.

Example parsed_cites :
  parse_puml cites_diagram =
  ([("Document", ["document_id"]); ("Person", ["person_id"]);
    ("Citation", ["citation_id"]); ("Journal", ["journal_id"]);
    ("Issue", ["issue_id"; "volume"])],
   [mkRel "Document" "||--o{" "Citation"; mkRel "Person" "||--o{" "Citation";
    mkRel "Journal" "||--o{" "Issue"]).
Proof. reflexivity. Qed.

Example assoc_cites :
  detect_assoc_entities (fst (parse_puml cites_diagram))
                        (snd (parse_puml cites_diagram)) = ["Citation"].
Proof. reflexivity. Qed.

(* ------------------------------------------------------------------ *)
(** ** Strings *)

Module PyFacts.
Import Py.

Lemma lower_ascii_idem a : lower_ascii (lower_ascii a) = lower_ascii a.
Proof. destruct a as [[] [] [] [] [] [] [] []]; reflexivity. Qed.

Lemma lower_idem s : lower (lower s) = lower s.
Proof.
  unfold lower. induction s as [|a s IH]; simpl; [reflexivity|].
  now rewrite lower_ascii_idem, IH.
Qed.

Lemma lower_app s t : lower (s ++ t) = (lower s ++ lower t)%string.
Proof.
  unfold lower. induction s as [|a s IH]; simpl; [reflexivity|].
  now rewrite IH.
Qed.

Lemma app_nil_r s : (s ++ "")%string = s.
Proof. induction s as [|a s IH]; simpl; [reflexivity|]. now rewrite IH. Qed.

Lemma app_assoc s t u : ((s ++ t) ++ u)%string = (s ++ (t ++ u))%string.
Proof. induction s as [|a s IH]; simpl; [reflexivity|]. now rewrite IH. Qed.

Lemma length_app s t :
  String.length (s ++ t) = String.length s + String.length t.
Proof. induction s as [|a s IH]; simpl; [reflexivity|]. now rewrite IH. Qed.

Lemma rev_onto_app s acc : rev_onto s acc = (srev s ++ acc)%string.
Proof.
  unfold srev. revert acc.
  induction s as [|a s IH]; intros acc; simpl; [reflexivity|].
  rewrite IH, (IH (String a "")), app_assoc. reflexivity.
Qed.

Lemma srev_app s t : srev (s ++ t) = (srev t ++ srev s)%string.
Proof.
  induction s as [|a s IH]; simpl.
  - now rewrite app_nil_r.
  - unfold srev in *. simpl.
    rewrite (rev_onto_app (s ++ t)), (rev_onto_app s).
    unfold srev. rewrite IH, app_assoc. reflexivity.
Qed.

Lemma prefix_app p s : String.prefix p (p ++ s) = true.
Proof.
  induction p as [|a p IH]; simpl.
  - now destruct s.
  - destruct (ascii_dec a a); [exact IH | congruence].
Qed.

Lemma endswith_app s p : endswith (s ++ p) p = true.
Proof. unfold endswith. rewrite srev_app. apply prefix_app. Qed.

Lemma stake_app s t : stake (String.length s) (s ++ t) = s.
Proof. induction s as [|a s IH]; simpl; [now destruct t|]. now rewrite IH. Qed.

Lemma drop_last_app s p :
  drop_last (String.length p) (s ++ p) = s.
Proof.
  unfold drop_last. rewrite length_app.
  replace (String.length s + String.length p - String.length p)
    with (String.length s) by lia.
  apply stake_app.
Qed.

Lemma app_inv_tail s t u : (s ++ u)%string = (t ++ u)%string -> s = t.
Proof.
  intros H.
  rewrite <- (drop_last_app s u), <- (drop_last_app t u).
  now rewrite H.
Qed.

(** A name ending in [_id] differs from any name that does not. *)
Lemma eqb_not_id cl s :
  endswith cl "_id" = true -> endswith s "_id" = false ->
  String.eqb cl s = false.
Proof.
  intros H1 H2. destruct (String.eqb_spec cl s) as [->|]; congruence.
Qed.

Lemma mem_In x xs : mem x xs = true <-> In x xs.
Proof.
  unfold mem. rewrite existsb_exists. split.
  - intros (y & Hy & E). apply String.eqb_eq in E. now subst.
  - intros H. exists x. split; [assumption | apply String.eqb_refl].
Qed.

Lemma index_Some x xs i :
  index x xs = Some i -> nth_error xs i = Some x.
Proof.
  revert i. induction xs as [|y ys IH]; intros i; simpl; [discriminate|].
  destruct (String.eqb_spec y x) as [->|].
  - now intros [= <-].
  - destruct (index x ys) as [k|]; simpl; [|discriminate].
    intros [= <-]. simpl. now apply IH.
Qed.

End PyFacts.

(* ------------------------------------------------------------------ *)
(** ** Dictionaries *)

Section DictFacts.

Context {V : Type}.
Implicit Types (d : dict V) (k : string) (v : V).

Lemma dget_dset_same d k v : dget (dset d k v) k = Some v.
Proof.
  induction d as [|[k' v'] d IH]; simpl.
  - now rewrite String.eqb_refl.
  - destruct (String.eqb k' k) eqn:E; simpl; rewrite E; [reflexivity | exact IH].
Qed.

Lemma dget_dset_other d k k' v : k <> k' -> dget (dset d k v) k' = dget d k'.
Proof.
  intros Hne. induction d as [|[k0 v0] d IH]; simpl.
  - destruct (String.eqb_spec k k'); [contradiction | reflexivity].
  - destruct (String.eqb_spec k0 k) as [->|]; simpl.
    + destruct (String.eqb_spec k k'); [contradiction | reflexivity].
    + now rewrite IH.
Qed.

Lemma dget_In d k v : dget d k = Some v -> In (k, v) d.
Proof.
  induction d as [|[k' v'] d IH]; simpl; [discriminate|].
  destruct (String.eqb_spec k' k) as [->|].
  - intros [= ->]. now left.
  - intros H. right. now apply IH.
Qed.

Lemma In_dget d k v : NoDup (keys d) -> In (k, v) d -> dget d k = Some v.
Proof.
  induction d as [|[k' v'] d IH]; simpl; [contradiction|].
  intros Hnd [[= -> ->]|Hin].
  - now rewrite String.eqb_refl.
  - apply NoDup_cons_iff in Hnd as [Hni Hnd].
    destruct (String.eqb_spec k' k) as [->|]; [|now apply IH].
    exfalso. apply Hni. unfold keys. now apply (in_map fst _ (k, v)).
Qed.

Lemma keys_dset d k v :
  keys (dset d k v) = if Py.mem k (keys d) then keys d else keys d ++ [k].
Proof.
  unfold Py.mem, keys. induction d as [|[k' v'] d IH]; simpl; [reflexivity|].
  rewrite (String.eqb_sym k k').
  destruct (String.eqb k' k) eqn:E; simpl; [reflexivity|].
  rewrite IH. now destruct (existsb (String.eqb k) (map fst d)).
Qed.

Lemma NoDup_keys_dset d k v : NoDup (keys d) -> NoDup (keys (dset d k v)).
Proof.
  intros H. rewrite keys_dset.
  destruct (Py.mem k (keys d)) eqn:E; [assumption|].
  apply NoDup_app; [assumption | repeat constructor; intros [] | ].
  intros x Hx [<-|[]].
  apply PyFacts.mem_In in Hx. congruence.
Qed.

(** Every value of a dictionary built by successive stores satisfies what
    each stored value satisfies. *)
Lemma dget_fold_dset {A} (P : V -> Prop) (key : A -> string) (val : A -> V)
  (l : list A) d k v :
  (forall a, P (val a)) ->
  (forall k' v', dget d k' = Some v' -> P v') ->
  dget (fold_left (fun acc a => dset acc (key a) (val a)) l d) k = Some v ->
  P v.
Proof.
  intros Hval. revert d. induction l as [|a l IH]; intros d Hd; simpl.
  - apply Hd.
  - apply IH. intros k' v'.
    destruct (String.eqb_spec (key a) k') as [<-|Hne].
    + rewrite dget_dset_same. intros [= <-]. apply Hval.
    + rewrite dget_dset_other by assumption. apply Hd.
Qed.

End DictFacts.

(* ------------------------------------------------------------------ *)
(** ** The random generator *)

Lemma randbelow_lt n g : 0 < n -> fst (randbelow n g) < n.
Proof. intros H. simpl. apply Nat.mod_upper_bound. lia. Qed.

Lemma randint_range a b g :
  (a <= b)%Z -> (a <= fst (randint a b g) <= b)%Z.
Proof.
  intros H. unfold randint, bindR, retR. cbn [fst snd].
  pose proof (@randbelow_lt (Z.to_nat (b - a + 1)) g ltac:(lia)). lia.
Qed.

Lemma choice_In {A} (d : A) l g : l <> [] -> In (fst (choice d l g)) l.
Proof.
  intros H. unfold choice, bindR, retR. cbn [fst snd].
  apply nth_In. apply randbelow_lt. destruct l; [congruence | simpl; lia].
Qed.

(* ------------------------------------------------------------------ *)
(** ** Primary-key sequences *)

Lemma length_one_to rows : List.length (one_to rows) = Z.to_nat rows.
Proof. unfold one_to. now rewrite length_map, length_seq. Qed.

Lemma nth_one_to rows i :
  i < Z.to_nat rows -> nth i (one_to rows) 0%Z = (Z.of_nat i + 1)%Z.
Proof.
  intros H. unfold one_to.
  set (f := fun i : nat => (Z.of_nat i + 1)%Z).
  rewrite (nth_indep _ 0%Z (f 0)) by (now rewrite length_map, length_seq).
  rewrite map_nth, seq_nth by assumption. reflexivity.
Qed.

Lemma In_one_to rows v : In v (one_to rows) <-> (1 <= v <= rows)%Z.
Proof.
  unfold one_to. rewrite in_map_iff. split.
  - intros (i & <- & Hi). apply in_seq in Hi. lia.
  - intros H. exists (Z.to_nat (v - 1)). split; [lia|]. apply in_seq. lia.
Qed.

Lemma one_to_nonempty rows : one_to rows <> [] -> (1 <= rows)%Z.
Proof.
  intros H. destruct (Z_lt_le_dec rows 1) as [Hlt|]; [|assumption].
  exfalso. apply H. unfold one_to.
  now replace (Z.to_nat rows) with 0 by lia.
Qed.

Lemma one_to_pos rows : (1 <= rows)%Z -> one_to rows <> [].
Proof.
  intros H E. apply (f_equal (@List.length Z)) in E.
  rewrite length_one_to in E. simpl in E. lia.
Qed.

(** A detected identifier column has a name, so [if ent_id_col] holds. *)
Lemma ent_id_col_named ent cols c : ent_id_col ent cols = Some c -> c <> "".
Proof.
  unfold ent_id_col.
  destruct (Py.index (fk_name ent) (map Py.lower cols)) as [i|] eqn:E.
  - intros Hc ->. apply PyFacts.index_Some in E.
    rewrite nth_error_map, Hc in E. simpl in E.
    injection E as E. unfold fk_name in E.
    destruct (Py.lower ent); discriminate.
  - clear E. induction cols as [|c' cs IH]; simpl; [discriminate|].
    destruct (Py.endswith (Py.lower c') "_id") eqn:E; [|exact IH].
    intros [= ->] ->. discriminate.
Qed.

Lemma pk_seq_detected ent cols rows c :
  ent_id_col ent cols = Some c -> pk_seq ent cols rows = one_to rows.
Proof.
  intros H. unfold pk_seq. rewrite H.
  destruct (String.eqb_spec c ""); [|reflexivity].
  now apply ent_id_col_named in H.
Qed.

Lemma pk_seq_cases ent cols rows :
  pk_seq ent cols rows = [] \/ pk_seq ent cols rows = one_to rows.
Proof.
  unfold pk_seq. destruct (ent_id_col ent cols) as [c|]; [|now left].
  destruct (String.eqb c ""); [now left | now right].
Qed.

(** Every stored sequence is empty or is [1..rows]. *)
Lemma pk_values_cases ents rows k vals :
  dget (pk_values_of ents rows) k = Some vals ->
  vals = [] \/ vals = one_to rows.
Proof.
  unfold pk_values_of.
  apply (dget_fold_dset (fun v => v = [] \/ v = one_to rows)
           (fun ec : string * list string => fst ec)
           (fun ec => pk_seq (fst ec) (snd ec) rows)).
  - intros a. apply pk_seq_cases.
  - intros k' v'. discriminate.
Qed.

Lemma pk_get_cases ents rows k :
  pk_get (pk_values_of ents rows) k = [] \/
  pk_get (pk_values_of ents rows) k = one_to rows.
Proof.
  unfold pk_get.
  destruct (dget (pk_values_of ents rows) k) as [v|] eqn:E; [|now left].
  exact (pk_values_cases _ _ _ E).
Qed.

Lemma In_pk_values_cases ents rows k vals :
  In (k, vals) (pk_values_of ents rows) -> vals = [] \/ vals = one_to rows.
Proof.
  unfold pk_values_of.
  assert (G : forall (l : entities) (d : dict (list Z)),
             (forall k v, In (k, v) d -> v = [] \/ v = one_to rows) ->
             forall k v,
               In (k, v) (fold_left
                 (fun pk ec => dset pk (fst ec) (pk_seq (fst ec) (snd ec) rows))
                 l d) -> v = [] \/ v = one_to rows).
  { induction l as [|a l IH]; intros d Hd; simpl; [exact Hd|].
    apply IH. clear IH. intros k' v'.
    induction d as [|[k0 v0] d IHd]; simpl.
    - intros [[= <- <-]|[]]. apply pk_seq_cases.
    - destruct (String.eqb k0 (fst a)); simpl.
      + intros [[= <- <-]|H]; [apply pk_seq_cases|].
        apply (Hd k' v'). now right.
      + intros [[= <- <-]|H]; [apply (Hd k0 v0); now left|].
        apply IHd; [|assumption]. intros k1 v1 H1. apply (Hd k1 v1). now right. }
  apply G. intros ? ? [].
Qed.

(** With distinct entity names, an entity's stored sequence is the one
    computed from its own columns. *)
Lemma pk_get_of_entity ents rows ent cols :
  NoDup (keys ents) -> In (ent, cols) ents ->
  pk_get (pk_values_of ents rows) ent = pk_seq ent cols rows.
Proof.
  unfold pk_values_of, pk_get.
  assert (G : forall (l : entities) (d : dict (list Z)),
             NoDup (keys l) -> In (ent, cols) l ->
             dget (fold_left
               (fun pk ec => dset pk (fst ec) (pk_seq (fst ec) (snd ec) rows))
               l d) ent = Some (pk_seq ent cols rows)).
  { induction l as [|[e c] l IH]; intros d Hnd Hin; [destruct Hin|].
    simpl in Hnd. apply NoDup_cons_iff in Hnd as [Hni Hnd].
    cbn [fold_left fst snd]. destruct Hin as [[= -> ->]|Hin].
    - clear IH. generalize (dget_dset_same d ent (pk_seq ent cols rows)).
      generalize (dset d ent (pk_seq ent cols rows)).
      induction l as [|[e c] l IH]; intros d' Hd'; simpl; [exact Hd'|].
      apply IH.
      + intros H. apply Hni. now right.
      + now apply NoDup_cons_iff in Hnd.
      + rewrite dget_dset_other; [exact Hd'|].
        intros ->. apply Hni. now left.
    - now apply IH. }
  intros Hnd Hin. now rewrite (G ents [] Hnd Hin).
Qed.

(* ------------------------------------------------------------------ *)
(** ** Key picks stay within [1..rows] *)

Lemma pick_pk_range ents rows e g :
  (1 <= rows)%Z ->
  In (fst (pick_pk (pk_values_of ents rows) rows e g)) (one_to rows).
Proof.
  intros Hrows. unfold pick_pk.
  destruct (pk_get_cases ents rows e) as [E|E]; rewrite E.
  - apply In_one_to. pose proof (@randint_range 1 (Z.max 1 rows) g). lia.
  - pose proof (one_to_pos Hrows) as Hne.
    destruct (one_to rows) as [|z l] eqn:E1; [congruence|].
    rewrite <- E1. apply choice_In. congruence.
Qed.

Lemma pick_pk_for_ref_range items ref rows g :
  (forall k v, In (k, v) items -> v = [] \/ v = one_to rows) ->
  (1 <= rows)%Z ->
  In (fst (pick_pk_for_ref items ref rows g)) (one_to rows).
Proof.
  intros Hitems Hrows.
  induction items as [|[k vals] rest IH]; cbn [pick_pk_for_ref].
  - apply In_one_to. pose proof (@randint_range 1 (Z.max 1 rows) g). lia.
  - assert (IH' := IH (fun k v H => Hitems k v (or_intror H))). clear IH.
    destruct (String.eqb (Py.lower k) (Py.lower ref)); [|exact IH'].
    destruct vals as [|z l] eqn:E; [exact IH'|].
    destruct (Hitems k (z :: l) (or_introl eq_refl)) as [H|H];
      [discriminate|].
    rewrite H. apply choice_In. rewrite <- H. discriminate.
Qed.

Lemma resample_keeps (P : Z -> Prop) n pick adv s g :
  P s -> (forall g', P (fst (pick g'))) -> P (fst (resample n pick adv s g)).
Proof.
  intros Hs Hpick. revert s g Hs.
  induction n as [|n IH]; intros s g Hs; simpl.
  - now destruct adv.
  - destruct adv as [a|]; [|exact Hs].
    destruct (same_text s a); [|exact Hs].
    unfold bindR. apply IH. apply Hpick.
Qed.

(** In a goal about [gen_cell], discharge the guards that compare a
    column name ending in [_id] with a literal that does not. *)
Ltac kill_names H :=
  repeat match goal with
  | |- context [String.eqb ?cl ?s] =>
      rewrite (@PyFacts.eqb_not_id cl s H eq_refl)
  end.

Lemma fk_cell_in_range ents rows persons ent cols idx row c g :
  Py.endswith (Py.lower c) "_id" = true ->
  role_rule ent (Py.lower c) = false ->
  (1 <= rows)%Z ->
  exists v g',
    gen_cell (pk_values_of ents rows) persons rows ent cols idx row c g
      = Ok (VInt v, g')
    /\ In v (one_to rows).
Proof.
  intros Hid Hrole Hrows. unfold gen_cell. cbv zeta.
  revert Hid Hrole. generalize (Py.lower c) as cl. intros cl Hid Hrole.
  rewrite Hrole, Hid. cbn [Py.mem existsb].
  kill_names Hid.
  rewrite ?andb_false_r. cbn [orb andb].
  unfold ok, bindR, retR. cbn [fst snd].
  destruct (_ && negb _) eqn:E1.
  - apply andb_true_iff in E1 as [_ E1]. apply negb_true_iff in E1.
    apply Nat.eqb_neq in E1.
    destruct (pk_get_cases ents rows ent) as [E|E]; rewrite E in *;
      [simpl in E1; lia|].
    eexists _, _. split; [reflexivity|].
    apply nth_In. apply Nat.mod_upper_bound. lia.
  - destruct (_ && _ && _).
    + eexists _, _. split; [reflexivity|]. now apply pick_pk_range.
    + destruct (_ && _ && _).
      * eexists _, _. split; [reflexivity|].
        apply resample_keeps; intros; now apply pick_pk_range.
      * eexists _, _. split; [reflexivity|].
        apply pick_pk_for_ref_range; [|assumption].
        intros k v. apply In_pk_values_cases.
Qed.

(* ------------------------------------------------------------------ *)
(** ** From cells to lines to files *)

Section Lines.

Variable pk_values : dict (list Z).
Variable persons : dict person.
Variable rows : Z.
Variable ent : string.
Variable cols : list string.

(** A finished line extends the cells it started from by one cell per
    remaining column, each produced by [gen_cell] from the cells before
    it. *)
Lemma gen_row_from_cells idx cs row g out g' :
  gen_row_from pk_values persons rows ent cols idx cs row g = Ok (out, g') ->
  exists vs,
    out = row ++ vs /\ List.length vs = List.length cs /\
    forall j c, nth_error cs j = Some c ->
      exists v g1 g2,
        nth_error vs j = Some v /\
        gen_cell pk_values persons rows ent cols idx (row ++ firstn j vs) c g1
          = Ok (v, g2).
Proof.
  revert row g. induction cs as [|c cs IH]; intros row g; simpl.
  - intros [= <- <-]. exists []. rewrite app_nil_r. repeat split.
    intros [|j] c; discriminate.
  - destruct (gen_cell pk_values persons rows ent cols idx row c g)
      as [[v g1]|f] eqn:E; [|discriminate].
    intros H. apply IH in H as (vs & -> & Hlen & Hcells).
    exists (v :: vs). rewrite <- app_assoc. repeat split; [simpl; lia|].
    intros [|j] c' Hc; simpl in Hc.
    + injection Hc as <-. exists v, g, g1. simpl. rewrite app_nil_r.
      split; [reflexivity | exact E].
    + destruct (Hcells j c' Hc) as (v' & ga & gb & Hv & Hcell).
      exists v', ga, gb. split; [exact Hv|].
      simpl. rewrite <- app_assoc in Hcell. exact Hcell.
Qed.

(** The line at position [i] of the body was produced for line index
    [idx + i]. *)
Lemma gen_rows_lines n idx g i line :
  nth_error (fst (gen_rows pk_values persons rows ent cols n idx g)) i
    = Some line ->
  exists g1 g2,
    gen_row pk_values persons rows ent cols (idx + i) g1 = Ok (line, g2).
Proof.
  revert idx g i. induction n as [|n IH]; intros idx g i; simpl.
  - destruct i; discriminate.
  - destruct (gen_row pk_values persons rows ent cols idx g)
      as [[row g1]|f] eqn:E; simpl; [|destruct i; discriminate].
    destruct i as [|i]; simpl.
    + intros [= <-]. exists g, g1. now rewrite Nat.add_0_r.
    + intros H. apply IH in H as (ga & gb & H).
      exists ga, gb. now rewrite Nat.add_succ_r.
Qed.

(** Every line of the file has one cell per column, and the cell under
    column [j] is what [gen_cell] returned on the cells to its left. *)
Lemma write_entity_cells g i line :
  nth_error (body (fst (write_entity pk_values persons rows ent cols g))) i
    = Some line ->
  List.length line = List.length cols /\
  forall j c, nth_error cols j = Some c ->
    exists v g1 g2,
      nth_error line j = Some v /\
      gen_cell pk_values persons rows ent cols i (firstn j line) c g1
        = Ok (v, g2).
Proof.
  unfold write_entity. cbn [fst body]. intros H.
  apply gen_rows_lines in H as (g1 & g2 & H). simpl in H.
  apply gen_row_from_cells in H as (vs & -> & Hlen & Hcells).
  simpl. split; [exact Hlen | exact Hcells].
Qed.

(** When no cell can fault, the loop writes all its lines. *)
Lemma gen_rows_total :
  (forall idx row c g, In c cols ->
     exists v g',
       gen_cell pk_values persons rows ent cols idx row c g = Ok (v, g')) ->
  forall n idx g,
    List.length (fst (gen_rows pk_values persons rows ent cols n idx g)) = n
    /\ exists g',
      snd (gen_rows pk_values persons rows ent cols n idx g) = Ok g'.
Proof.
  intros Hcell.
  assert (Hrow : forall idx cs row g, incl cs cols ->
            exists out g',
              gen_row_from pk_values persons rows ent cols idx cs row g
                = Ok (out, g')).
  { intros idx cs. induction cs as [|c cs IH]; intros row g Hin;
      cbn [gen_row_from].
    - now exists row, g.
    - destruct (Hcell idx row c g) as (v & g1 & E); [apply Hin; now left|].
      rewrite E. apply IH.
      intros x Hx. apply Hin. now right. }
  induction n as [|n IH]; intros idx g; simpl.
  - split; [reflexivity | now exists g].
  - destruct (Hrow idx cols [] g (incl_refl _)) as (out & g1 & E).
    unfold gen_row. rewrite E. simpl.
    destruct (IH (S idx) g1) as (Hlen & g2 & Hg2).
    split; [now rewrite Hlen | now exists g2].
Qed.

End Lines.

(** Every file of a run was written by [write_entity] for an entity of the
    augmented schema or by [write_join] for a many-to-many edge. *)
Lemma write_entities_files pk persons rows ents g f :
  In f (fst (write_entities pk persons rows ents g)) ->
  exists e c g1,
    In (e, c) ents /\ f = fst (write_entity pk persons rows e c g1).
Proof.
  revert g. induction ents as [|[e c] rest IH]; intros g; [intros []|].
  cbn [write_entities].
  destruct (write_entity pk persons rows e c g) as [f0 [g'|err]] eqn:E;
    cbn [fst].
  - intros [<-|H].
    + exists e, c, g. split; [now left | now rewrite E].
    + apply IH in H as (e1 & c1 & g1 & Hin & ->).
      exists e1, c1, g1. split; [now right | reflexivity].
  - intros [<-|[]]. exists e, c, g. split; [now left | now rewrite E].
Qed.

Lemma write_joins_files pk rows rels g f :
  In f (fst (write_joins pk rows rels g)) ->
  exists r g1,
    In r rels /\ is_mn (connector r) = true /\
    f = fst (write_join pk rows r g1).
Proof.
  revert g. induction rels as [|r rs IH]; intros g; [intros []|].
  cbn [write_joins]. destruct (is_mn (connector r)) eqn:E.
  - unfold bindR, retR. cbn [fst]. intros [<-|H].
    + exists r, g. repeat split; [now left | exact E].
    + apply IH in H as (r1 & g1 & Hin & Hmn & ->).
      exists r1, g1. repeat split; [now right | exact Hmn].
  - intros H. apply IH in H as (r1 & g1 & Hin & Hmn & ->).
    exists r1, g1. repeat split; [now right | exact Hmn].
Qed.

Lemma generate_csvs_files ents rels rows g f :
  In f (fst (generate_csvs ents rels rows g)) ->
  let ents' := fst (augment (detect_assoc_entities ents rels) ents rels) in
  let pk := pk_values_of ents' rows in
  (exists e c persons g1,
     In (e, c) ents' /\ f = fst (write_entity pk persons rows e c g1)) \/
  (exists r g1,
     In r rels /\ is_mn (connector r) = true /\
     f = fst (write_join pk rows r g1)).
Proof.
  unfold generate_csvs. cbv zeta.
  destruct (augment (detect_assoc_entities ents rels) ents rels)
    as [ents' [err|]]; cbn [fst]; [intros []|].
  set (pk := pk_values_of ents' rows).
  set (ps := make_persons ents' pk g).
  destruct (write_entities pk (fst ps) rows ents' (snd ps))
    as [files [g'|err]] eqn:E; cbn [fst]; intros H.
  - apply in_app_or in H as [H|H].
    + left. replace files with (fst (write_entities pk (fst ps) rows ents'
                                        (snd ps))) in H by now rewrite E.
      apply write_entities_files in H as (e & c & g1 & Hin & ->).
      now exists e, c, (fst ps), g1.
    + right. now apply write_joins_files in H.
  - left. replace files with (fst (write_entities pk (fst ps) rows ents'
                                      (snd ps))) in H by now rewrite E.
    apply write_entities_files in H as (e & c & g1 & Hin & ->).
    now exists e, c, (fst ps), g1.
Qed.

(** The entity names of a parsed and augmented schema are distinct, as
    the keys of a dictionary are. *)
Lemma parse_line_keys st raw :
  NoDup (keys (p_entities st)) -> NoDup (keys (p_entities (parse_line st raw))).
Proof.
  intros H. unfold parse_line. cbv zeta.
  destruct (_ || _); [exact H|].
  destruct (match_entity (Py.strip raw)); cbn [p_entities];
    [now apply NoDup_keys_dset|].
  assert (Hrel : forall st', NoDup (keys (p_entities st')) ->
            NoDup (keys (p_entities (parse_relation st' (Py.strip raw))))).
  { intros st' H'. unfold parse_relation.
    destruct (Py.contains (Py.strip raw) "--"); [|exact H'].
    destruct (Py.re_split Py.is_space (Py.strip raw)) as [|l [|c [|r rest]]];
      exact H'. }
  destruct (p_current st) as [cur|]; [|now apply Hrel].
  destruct (Py.startswith (Py.strip raw) "}"); [exact H|].
  destruct (Py.contains (Py.strip raw) ":"); [|now apply Hrel].
  destruct (_ && _); [|exact H]. cbn [p_entities]. unfold append_col.
  destruct (dget (p_entities st) cur); [now apply NoDup_keys_dset | exact H].
Qed.

Lemma parse_puml_keys lines : NoDup (keys (fst (parse_puml lines))).
Proof.
  unfold parse_puml, parse_from. cbn [fst].
  assert (G : forall st, NoDup (keys (p_entities st)) ->
            NoDup (keys (p_entities (fold_left parse_line lines st)))).
  { induction lines as [|raw rest IH]; intros st H; [exact H|].
    simpl. apply IH. now apply parse_line_keys. }
  apply G. constructor.
Qed.

Lemma augment_keys assoc rels : forall ents,
  NoDup (keys ents) -> NoDup (keys (fst (augment assoc ents rels))).
Proof.
  induction rels as [|r rs IH]; intros ents H; simpl; [exact H|].
  destruct (augment_edge assoc ents r) as [ents1|err] eqn:E; [|exact H].
  apply IH. revert E. unfold augment_edge, add_fk.
  repeat match goal with
  | |- context [if ?b then _ else _] => destruct b
  | |- context [match dget ?d ?k with _ => _ end] => destruct (dget d k)
  end; intros [= <-]; try exact H; now apply NoDup_keys_dset.
Qed.

(* ------------------------------------------------------------------ *)
(** ** C1: foreign-key values and the referenced key sequence *)

(** Away from the investigator-role rule the foreign keys are consistent.
    In the file written for an entity, take a column whose lowered name is
    [ref ++ "_id"] and that the investigator-role rule does not claim.  If an entity [k] whose name equals [ref] up to letter
    case has a non-empty primary-key sequence, then on every line the cell
    under that column is an integer of that sequence. *)
Theorem fk_values_within_sequence ents rows persons ent cols g i line j c ref k :
  nth_error
    (body (fst (write_entity (pk_values_of ents rows) persons rows ent cols g)))
    i = Some line ->
  nth_error cols j = Some c ->
  Py.lower c = (ref ++ "_id")%string ->
  role_rule ent (Py.lower c) = false ->
  Py.lower k = Py.lower ref ->
  pk_get (pk_values_of ents rows) k <> [] ->
  exists v,
    nth_error line j = Some (VInt v) /\
    In v (pk_get (pk_values_of ents rows) k).
Proof.
  intros Hline Hc Hname Hrole _ Hseq.
  destruct (pk_get_cases ents rows k) as [E|E]; [congruence|].
  rewrite E in *. apply one_to_nonempty in Hseq.
  apply write_entity_cells in Hline as [_ Hcells].
  destruct (Hcells j c Hc) as (v & g1 & g2 & Hv & Hcell).
  assert (Hid : Py.endswith (Py.lower c) "_id" = true)
    by (rewrite Hname; apply PyFacts.endswith_app).
  destruct (@fk_cell_in_range ents rows persons ent cols i (firstn j line)
              c g1 Hid Hrole Hseq) as (z & g' & Hz & Hin).
  rewrite Hz in Hcell. injection Hcell as <- _.
  now exists z.
Qed.

(** The theorem applies to the [document_id] column of a [Person]. *)
Lemma fk_values_within_sequence_witness :
  exists v,
    nth_error [VInt 1; VInt 1] 1 = Some (VInt v) /\
    In v (pk_get (pk_values_of
                    [("Person", ["person_id"; "document_id"]);
                     ("Document", ["document_id"])] 3) "Document").
Proof.
  apply (@fk_values_within_sequence
           [("Person", ["person_id"; "document_id"]);
            ("Document", ["document_id"])] 3 [] "Person"
           ["person_id"; "document_id"] (const_rng 0) 0 [VInt 1; VInt 1]
           1 "document_id" "document" "Document");
    try reflexivity.
  vm_compute. discriminate.
Defined.

(** C1, evaluated on [role_diagram] with [rows = 2] and every draw 0.  The
    augmentation step gives [Investigatorship] the foreign-key column
    [role_id] and the entity [Role] has the key sequence [1, 2]; but the
    investigator-role rule, whose test is that the column name contains
    [role], claims the column before the foreign-key rule is reached, and
    every cell under [role_id] is a role label, not a key of [Role]. *)
Lemma role_id_cell_outside_sequence :
  let ents := fst (parse_puml role_diagram) in
  let rels := snd (parse_puml role_diagram) in
  let ents' := fst (augment (detect_assoc_entities ents rels) ents rels) in
  dget ents' "Investigatorship" = Some ["investigatorship_id"; "role_id"] /\
  pk_get (pk_values_of ents' 2) "Role" = [1; 2]%Z /\
  fst (main role_diagram 2 (const_rng 0)) =
    [mkFile "role.csv" ["role_id"] [[VInt 1]; [VInt 2]];
     mkFile "investigatorship.csv" ["investigatorship_id"; "role_id"]
       [[VInt 1; VStr "Principal Investigator"];
        [VInt 2; VStr "Principal Investigator"]]] /\
  ~ (exists v, VStr "Principal Investigator" = VInt v /\ In v [1; 2]%Z).
Proof.
  repeat split; try (vm_compute; reflexivity).
  intros (v & Hv & _). discriminate.
Qed.

(* ------------------------------------------------------------------ *)
(** ** C2: the key sequence and the identifier column *)

Lemma gen_rows_length_le pk persons rows ent cols n idx g :
  List.length (fst (gen_rows pk persons rows ent cols n idx g)) <= n.
Proof.
  revert idx g. induction n as [|n IH]; intros idx g; simpl; [lia|].
  destruct (gen_row pk persons rows ent cols idx g) as [[row g1]|f]; simpl;
    [|lia].
  specialize (IH (S idx) g1). lia.
Qed.





(* ------------------------------------------------------------------ *)
(** ** Faults of the row synthesizer *)

(** Walk down the chain of rules of [gen_cell], one guard at a time,
    trying [tac] on every rule body. *)
Ltac step_chain :=
  lazymatch goal with
  | |- context [(if ?b then _ else _) ?g = _] => destruct b eqn:?
  | |- context [(match ?x with Some _ => _ | None => _ end) ?g = _] =>
      destruct x
  | |- context [(match ?x with VInt _ => _ | _ => _ end) ?g = _] =>
      destruct x
  end.

Ltac chain tac := first [ solve [tac] | step_chain; chain tac ].

Ltac split_guards :=
  repeat match goal with
  | H : _ && _ = true |- _ => apply andb_true_iff in H as [? ?]
  | H : String.eqb _ _ = true |- _ => apply String.eqb_eq in H
  end.

(** Only two rules fault, both in the [Person] block. *)
Lemma gen_cell_fault pk persons rows ent cols idx row c g f :
  gen_cell pk persons rows ent cols idx row c g = Raise f ->
  ent = "Person" /\
  ((Py.lower c = "preferred_title" /\ f = NameError "PREFERRED_TITLES") \/
   (Py.lower c = "type" /\ f = NameError "PERSON_TYPES")).
Proof.
  unfold gen_cell. cbv zeta.
  chain ltac:(first [ unfold ok; discriminate
                    | intros [= <-]; split_guards; auto ]).
Qed.

(** Outside [Person] every cell gets a value. *)
Lemma gen_cell_total pk persons rows ent cols idx row c g :
  ent <> "Person" ->
  exists v g', gen_cell pk persons rows ent cols idx row c g = Ok (v, g').
Proof.
  intros Hne.
  destruct (gen_cell pk persons rows ent cols idx row c g) as [[v g']|f] eqn:E.
  - now exists v, g'.
  - apply gen_cell_fault in E as [E _]. contradiction.
Qed.


(* ------------------------------------------------------------------ *)
(** ** Schema augmentation *)

(** The degree dictionary counts endpoint occurrences. *)
Lemma degree_get_bump d k e :
  degree_get (bump d k) e = degree_get d e + (if String.eqb e k then 1 else 0).
Proof.
  unfold bump, degree_get.
  destruct (String.eqb_spec e k) as [->|Hne].
  - now rewrite dget_dset_same.
  - rewrite dget_dset_other by congruence. lia.
Qed.

Lemma degrees_count rels e :
  degree_get (degrees rels) e = endpoint_count rels e.
Proof.
  unfold degrees, endpoint_count.
  assert (G : forall d,
    degree_get (fold_left (fun d r => bump (bump d (left r)) (right r)) rels d) e
    = degree_get d e +
      List.length (filter (String.eqb e)
                     (flat_map (fun r => [left r; right r]) rels))).
  { induction rels as [|r rs IH]; intros d; simpl; [lia|].
    rewrite IH, !degree_get_bump.
    destruct (String.eqb e (left r)), (String.eqb e (right r)); simpl; lia. }
  now rewrite G.
Qed.

Lemma assoc_member ents rels e cols :
  dget ents e = Some cols -> cols <> [] -> 2 <= endpoint_count rels e ->
  Py.mem e (detect_assoc_entities ents rels) = true.
Proof.
  intros Hget Hne Hdeg. apply PyFacts.mem_In. unfold detect_assoc_entities.
  apply (in_map fst _ (e, cols)). apply filter_In. split.
  - now apply dget_In.
  - cbn [fst snd]. rewrite degrees_count.
    apply andb_true_iff. split.
    + apply Nat.ltb_lt. destruct cols; [congruence | simpl; lia].
    + now apply Nat.leb_le.
Qed.

Lemma add_fk_other ents t fk ents' e :
  add_fk ents t fk = Ok ents' -> e <> t -> dget ents' e = dget ents e.
Proof.
  unfold add_fk. destruct (dget ents t) as [cols|]; [|discriminate].
  intros [= <-] Hne. destruct (Py.mem fk cols); [reflexivity|].
  apply dget_dset_other. congruence.
Qed.

(** An edge that touches a member of [assoc] appends nothing; any other
    edge appends to one of its own endpoints. *)
Lemma augment_edge_skips assoc ents r ents' e :
  Py.mem e assoc = true ->
  augment_edge assoc ents r = Ok ents' -> dget ents' e = dget ents e.
Proof.
  intros Hmem. unfold augment_edge.
  destruct (is_mn (connector r)); [now intros [= <-]|].
  destruct (Py.mem (left r) assoc || Py.mem (right r) assoc) eqn:E;
    [now intros [= <-]|].
  apply orb_false_iff in E as [El Er].
  assert (Hl : e <> left r) by (intros ->; congruence).
  assert (Hr : e <> right r) by (intros ->; congruence).
  repeat match goal with
  | |- context [if ?b then _ else _] => destruct b
  end; intros H; eapply add_fk_other; eassumption.
Qed.

(** What an edge does to a column list: it keeps the entity names, and
    extends a list by at most one name that was not in it. *)
Lemma add_fk_cols ents t fk ents' e :
  add_fk ents t fk = Ok ents' ->
  (dget ents e = None -> dget ents' e = None) /\
  (forall cols, dget ents e = Some cols ->
     exists extra, dget ents' e = Some (cols ++ extra) /\
                   (NoDup cols -> NoDup (cols ++ extra))).
Proof.
  unfold add_fk. destruct (dget ents t) as [tc|] eqn:Et; [|discriminate].
  intros [= <-].
  destruct (Py.mem fk tc) eqn:Em.
  - split; [trivial|]. intros cols H. exists []. now rewrite app_nil_r.
  - destruct (String.eqb_spec t e) as [->|Hne].
    + rewrite dget_dset_same. split; [congruence|].
      intros cols H. assert (cols = tc) by congruence. subst cols.
      exists [fk]. split; [reflexivity|]. intros Hnd.
      apply NoDup_app; [assumption | repeat constructor; intros [] |].
      intros x Hx [<-|[]]. apply PyFacts.mem_In in Hx. congruence.
    + rewrite dget_dset_other by assumption. split; [trivial|].
      intros cols H. exists []. now rewrite app_nil_r.
Qed.

Lemma augment_edge_cols assoc ents r ents' e :
  augment_edge assoc ents r = Ok ents' ->
  (dget ents e = None -> dget ents' e = None) /\
  (forall cols, dget ents e = Some cols ->
     exists extra, dget ents' e = Some (cols ++ extra) /\
                   (NoDup cols -> NoDup (cols ++ extra))).
Proof.
  assert (Hid : (dget ents e = None -> dget ents e = None) /\
    (forall cols, dget ents e = Some cols ->
       exists extra, dget ents e = Some (cols ++ extra) /\
                     (NoDup cols -> NoDup (cols ++ extra)))).
  { split; [trivial|]. intros cols H. exists []. now rewrite app_nil_r. }
  unfold augment_edge.
  repeat match goal with
  | |- context [if ?b then _ else _] => destruct b
  end; try (intros [= <-]; exact Hid); apply add_fk_cols.
Qed.

Lemma augment_cols assoc rels : forall ents e,
  (dget ents e = None -> dget (fst (augment assoc ents rels)) e = None) /\
  (forall cols, dget ents e = Some cols ->
     exists extra,
       dget (fst (augment assoc ents rels)) e = Some (cols ++ extra) /\
       (NoDup cols -> NoDup (cols ++ extra))).
Proof.
  induction rels as [|r rs IH]; intros ents e; simpl.
  - split; [trivial|]. intros cols H. exists []. now rewrite app_nil_r.
  - destruct (augment_edge assoc ents r) as [ents1|f] eqn:E; simpl.
    + destruct (@augment_edge_cols assoc ents r ents1 e E) as [Hn Hs].
      destruct (IH ents1 e) as [Hn' Hs']. split; [auto|].
      intros cols H. destruct (Hs cols H) as (x1 & H1 & N1).
      destruct (Hs' _ H1) as (x2 & H2 & N2).
      exists (x1 ++ x2). rewrite app_assoc. split; [exact H2 | auto].
    + split; [trivial|]. intros cols H. exists []. now rewrite app_nil_r.
Qed.

(* ------------------------------------------------------------------ *)
(** ** C5: association entities *)

Lemma augment_skips assoc e :
  Py.mem e assoc = true ->
  forall rels ents, dget (fst (augment assoc ents rels)) e = dget ents e.
Proof.
  intros Hmem. induction rels as [|r rs IH]; intros ents; simpl;
    [reflexivity|].
  destruct (augment_edge assoc ents r) as [ents1|f] eqn:E; simpl;
    [|reflexivity].
  rewrite IH. eapply augment_edge_skips; eassumption.
Qed.

(** C5.  An entity declared with at least one attribute and with
    relationship degree at least 2 (one per endpoint occurrence) has, after
    the augmentation loop, exactly the columns it was declared with. *)
Theorem assoc_entity_gets_no_fk ents rels e cols :
  dget ents e = Some cols ->
  cols <> [] ->
  2 <= endpoint_count rels e ->
  dget (fst (augment (detect_assoc_entities ents rels) ents rels)) e
    = Some cols.
Proof.
  intros Hget Hne Hdeg.
  rewrite augment_skips; [exact Hget|].
  eapply assoc_member; eassumption.
Qed.

Lemma assoc_entity_gets_no_fk_witness :
  let ents := fst (parse_puml cites_diagram) in
  let rels := snd (parse_puml cites_diagram) in
  dget (fst (augment (detect_assoc_entities ents rels) ents rels)) "Citation"
    = Some ["citation_id"].
Proof.
  apply (@assoc_entity_gets_no_fk
           (fst (parse_puml cites_diagram)) (snd (parse_puml cites_diagram))
           "Citation" ["citation_id"]).
  - reflexivity.
  - discriminate.
  - vm_compute. lia.
Defined.

(* ------------------------------------------------------------------ *)
(** ** C8: column lists *)

(** C8, as amended.  The final column list of an entity is its parsed list
    followed by the appended foreign-key columns, in that order, and the
    augmentation loop introduces no repetition: if the parsed names are
    pairwise distinct, so are the final ones. *)
Theorem augmentation_adds_no_duplicate ents rels e cols' :
  dget (fst (augment (detect_assoc_entities ents rels) ents rels)) e
    = Some cols' ->
  exists cols extra,
    dget ents e = Some cols /\ cols' = cols ++ extra /\
    (NoDup cols -> NoDup cols').
Proof.
  intros H.
  destruct (augment_cols (detect_assoc_entities ents rels) rels ents e)
    as [Hn Hs].
  destruct (dget ents e) as [cols|] eqn:E.
  - destruct (Hs cols eq_refl) as (extra & H1 & N1).
    rewrite H1 in H. injection H as <-. now exists cols, extra.
  - rewrite Hn in H by reflexivity. discriminate.
Qed.

Lemma augmentation_adds_no_duplicate_witness :
  exists cols extra,
    dget (fst (parse_puml cites_diagram)) "Issue" = Some cols /\
    ["issue_id"; "volume"; "journal_id"] = cols ++ extra /\
    (NoDup cols -> NoDup ["issue_id"; "volume"; "journal_id"]).
Proof.
  apply (@augmentation_adds_no_duplicate
           (fst (parse_puml cites_diagram)) (snd (parse_puml cites_diagram))
           "Issue" ["issue_id"; "volume"; "journal_id"]).
  reflexivity.
Defined.

(** C8 as stated fails on [dup_diagram]: the parser appends every
    attribute line, so the attribute declared twice is listed twice, in the
    parsed entity and in the header of its file. *)
Lemma repeated_attribute_kept :
  parse_puml dup_diagram = ([("A", ["x"; "x"])], []) /\
  main dup_diagram 0 (const_rng 0) = ([mkFile "a.csv" ["x"; "x"] []], None) /\
  ~ NoDup ["x"; "x"].
Proof.
  repeat split; try (vm_compute; reflexivity).
  intros H. apply NoDup_cons_iff in H as [H _]. apply H. now left.
Qed.

(* ------------------------------------------------------------------ *)
(** ** C9: the undefined vocabularies *)

Section PersonFault.

Variable pk_values : dict (list Z).
Variable persons : dict person.
Variable rows : Z.




End PersonFault.



(* ------------------------------------------------------------------ *)
(** ** C4: page ranges of documents *)

Lemma ok_bind_ret {A B} (m : R A) (f : A -> B) g v g' :
  ok (x <- m ;; retR (f x)) g = Ok (v, g') -> v = f (fst (m g)).
Proof.
  unfold ok, bindR, retR. intros H. injection H as H _. now symmetry.
Qed.

Lemma page_start_cell pk persons rows cols idx row c g v g' :
  Py.lower c = "page_start" ->
  gen_cell pk persons rows "Document" cols idx row c g = Ok (v, g') ->
  exists z, v = VInt z /\ (1 <= z <= 200)%Z.
Proof.
  unfold gen_cell. cbv zeta. intros ->.
  change (ok (pstart <- randint 1 200 ;; retR (VInt pstart)) g = Ok (v, g')
          -> exists z, v = VInt z /\ (1 <= z <= 200)%Z).
  intros H. apply ok_bind_ret in H. subst v.
  eexists. split; [reflexivity|]. apply randint_range. lia.
Qed.

Lemma page_end_cell pk persons rows cols idx row c g v g' i s :
  Py.lower c = "page_end" ->
  Py.index "page_start" (map Py.lower cols) = Some i ->
  nth_error row i = Some (VInt s) ->
  gen_cell pk persons rows "Document" cols idx row c g = Ok (v, g') ->
  exists e, v = VInt e /\ (s + 1 <= e <= s + 30)%Z.
Proof.
  unfold gen_cell. cbv zeta. intros -> Hi Hs.
  change ((match Py.index "page_start" (map Py.lower cols) with
           | Some ps_idx =>
               match nth_error row ps_idx with
               | Some (VInt start_val) =>
                   ok (d <- randint 1 30 ;; retR (VInt (start_val + d)%Z))
               | _ => ok (n <- randint 2 400 ;; retR (VInt n))
               end
           | None => ok (n <- randint 2 400 ;; retR (VInt n))
           end) g = Ok (v, g')
          -> exists e, v = VInt e /\ (s + 1 <= e <= s + 30)%Z).
  rewrite Hi, Hs. intros H.
  apply (@ok_bind_ret Z value (randint 1 30) (fun d => VInt (s + d))) in H.
  subst v. eexists. split; [reflexivity|].
  pose proof (@randint_range 1 30 g). lia.
Qed.

(** C4, as amended.  The file of [Document] has [rows] lines.  When the
    first column named [page_start] (up to letter case) stands at position
    [i] and a column [page_end] stands at a later position [j], every line
    holds integers under both, the one under [page_end] strictly the
    greater. *)
Theorem page_end_exceeds_page_start pk persons rows cols g i j :
  Py.index "page_start" (map Py.lower cols) = Some i ->
  nth_error (map Py.lower cols) j = Some "page_end" ->
  i < j ->
  let f := fst (write_entity pk persons rows "Document" cols g) in
  List.length (body f) = Z.to_nat rows /\
  forall n line, nth_error (body f) n = Some line ->
    exists s e,
      nth_error line i = Some (VInt s) /\
      nth_error line j = Some (VInt e) /\
      (s < e)%Z.
Proof.
  intros Hi Hj Hlt f. split.
  - unfold f, write_entity. cbn [fst body].
    apply gen_rows_total. intros idx row c g0 _.
    apply gen_cell_total. discriminate.
  - intros n line Hline.
    apply write_entity_cells in Hline as [_ Hcells].
    apply PyFacts.index_Some in Hi as Hi'.
    rewrite nth_error_map in Hi', Hj.
    destruct (nth_error cols i) as [ci|] eqn:Eci; [|discriminate].
    destruct (nth_error cols j) as [cj|] eqn:Ecj; [|discriminate].
    injection Hi' as Hci. injection Hj as Hcj.
    destruct (Hcells i ci Eci) as (vi & ga & gb & Hvi & Hcell_i).
    destruct (Hcells j cj Ecj) as (vj & gc & gd & Hvj & Hcell_j).
    destruct (page_start_cell _ _ _ _ _ _ _ _ Hci Hcell_i) as (s & -> & _).
    assert (Hrow : nth_error (firstn j line) i = Some (VInt s)).
    { rewrite nth_error_firstn.
      destruct (Nat.ltb_spec i j); [exact Hvi | lia]. }
    destruct (page_end_cell _ _ _ _ _ _ _ _ Hcj Hi Hrow Hcell_j)
      as (e & -> & He).
    exists s, e. repeat split; [exact Hvi | exact Hvj | lia].
Qed.

(** C4 as stated fails on [dup_pages_diagram]: [page_end] is computed
    from the first [page_start] cell only, so with the draws 0, 199, 0 the
    line is 1, 200, 2 and the second [page_start] column, which also
    precedes [page_end], holds the greater value. *)
Lemma second_page_start_may_exceed_page_end :
  fst (parse_puml dup_pages_diagram)
    = [("Document", ["page_start"; "page_start"; "page_end"])] /\
  main dup_pages_diagram 1 (spike_rng 1 199) =
    ([mkFile "document.csv" ["page_start"; "page_start"; "page_end"]
        [[VInt 1; VInt 200; VInt 2]]], None) /\
  nth_error ["page_start"; "page_start"; "page_end"] 1 = Some "page_start" /\
  nth_error ["page_start"; "page_start"; "page_end"] 2 = Some "page_end" /\
  1 < 2 /\ ~ (200 < 2)%Z.
Proof.
  repeat split; try (vm_compute; reflexivity); lia.
Qed.

Lemma page_end_exceeds_page_start_witness :
  let f := fst (write_entity [] [] 2 "Document"
                  ["document_id"; "Page_Start"; "title"; "page_end"]
                  (const_rng 7)) in
  List.length (body f) = Z.to_nat 2 /\
  forall n line, nth_error (body f) n = Some line ->
    exists s e,
      nth_error line 1 = Some (VInt s) /\
      nth_error line 3 = Some (VInt e) /\
      (s < e)%Z.
Proof.
  apply (@page_end_exceeds_page_start [] [] 2
           ["document_id"; "Page_Start"; "title"; "page_end"]
           (const_rng 7) 1 3).
  - reflexivity.
  - reflexivity.
  - lia.
Defined.

(* ------------------------------------------------------------------ *)
(** ** C7: no rows requested *)

Lemma write_entities_zero pk persons ents g :
  write_entities pk persons 0 ents g = (map header_only_entity ents, Ok g).
Proof.
  induction ents as [|[e c] rest IH]; [reflexivity|].
  cbn [write_entities]. unfold write_entity. cbn [Z.to_nat gen_rows fst snd].
  rewrite IH. reflexivity.
Qed.

Lemma write_join_zero pk r g :
  write_join pk 0 r g = (header_only_join r, g).
Proof.
  unfold write_join, join_pairs, bindR, retR. cbn [fst snd].
  replace (Z.to_nat (0 - _)) with 0 by lia.
  reflexivity.
Qed.

Lemma write_joins_zero pk rels g :
  write_joins pk 0 rels g
  = (map header_only_join (filter (fun r => is_mn (connector r)) rels), g).
Proof.
  induction rels as [|r rs IH]; [reflexivity|].
  cbn [write_joins filter]. destruct (is_mn (connector r)); [|exact IH].
  unfold bindR, retR. rewrite write_join_zero. cbn [fst snd].
  rewrite IH. reflexivity.
Qed.

(** C7.  With [rows = 0] a run that passes the augmentation loop writes,
    for every entity, its header and no line and, for every many-to-many
    edge, the join header and no line; a run stopped in the augmentation
    loop writes no file.  In either case no file has a data line. *)
Theorem zero_rows_headers_only ents rels g :
  generate_csvs ents rels 0 g =
    match augment (detect_assoc_entities ents rels) ents rels with
    | (_, Some f) => ([], Some f)
    | (ents', None) =>
        (map header_only_entity ents' ++
         map header_only_join (filter (fun r => is_mn (connector r)) rels),
         None)
    end
  /\ Forall (fun f => body f = []) (fst (generate_csvs ents rels 0 g)).
Proof.
  assert (E : generate_csvs ents rels 0 g =
    match augment (detect_assoc_entities ents rels) ents rels with
    | (_, Some f) => ([], Some f)
    | (ents', None) =>
        (map header_only_entity ents' ++
         map header_only_join (filter (fun r => is_mn (connector r)) rels),
         None)
    end).
  { unfold generate_csvs. cbv zeta.
    destruct (augment (detect_assoc_entities ents rels) ents rels)
      as [ents' [f|]]; [reflexivity|].
    rewrite write_entities_zero, write_joins_zero. reflexivity. }
  split; [exact E|]. rewrite E.
  destruct (augment (detect_assoc_entities ents rels) ents rels)
    as [ents' [f|]]; cbn [fst]; [constructor|].
  apply Forall_app. split; apply Forall_map, Forall_forall; reflexivity.
Qed.

(* ------------------------------------------------------------------ *)
(** ** C3: join tables *)

Lemma pad_pairs_length n l r pairs g :
  List.length (fst (pad_pairs n l r pairs g)) = List.length pairs + n.
Proof.
  revert pairs g. induction n as [|n IH]; intros pairs g; simpl; [lia|].
  unfold bindR. rewrite IH, length_app. simpl. lia.
Qed.

(** A join table has exactly [rows] lines. *)
Lemma write_join_rows pk rows r g :
  (0 <= rows)%Z ->
  List.length (body (fst (write_join pk rows r g))) = Z.to_nat rows.
Proof.
  intros H. unfold write_join, join_pairs, bindR, retR, slice_to.
  cbn [fst snd body]. rewrite length_map.
  destruct (Z.leb_spec 0 rows); [|lia].
  rewrite length_firstn, pad_pairs_length. lia.
Qed.

Lemma cover_pairs_same rows :
  cover_pairs (one_to rows) (one_to rows) = map (fun v => (v, v)) (one_to rows).
Proof.
  unfold cover_pairs. rewrite Nat.min_id, length_one_to.
  unfold one_to at 3. rewrite map_map.
  apply map_ext_in. intros i Hi. apply in_seq in Hi.
  rewrite Nat.mod_small, nth_one_to by lia. reflexivity.
Qed.

(** When both endpoints have a key sequence, the lock-step walk covers
    every key of both. *)
Lemma join_covers_keyed_endpoints pk rows r g v :
  pk_get pk (left r) = one_to rows ->
  pk_get pk (right r) = one_to rows ->
  In v (one_to rows) ->
  In [VInt v; VInt v] (body (fst (write_join pk rows r g))).
Proof.
  intros Hl Hr Hv.
  assert (Hrows : (1 <= rows)%Z) by (apply In_one_to in Hv; lia).
  pose proof (one_to_pos Hrows) as Hne.
  unfold write_join, join_pairs, keys_or_one, bindR, retR, slice_to.
  cbn [fst snd body]. rewrite Hl, Hr.
  destruct (one_to rows) as [|z l] eqn:E; [congruence|].
  rewrite <- E in Hv |- *.
  rewrite cover_pairs_same, length_map, length_one_to.
  replace (Z.to_nat (rows - Z.of_nat (Z.to_nat rows))) with 0 by lia.
  cbn [pad_pairs retR fst].
  destruct (Z.leb_spec 0 rows); [|lia].
  rewrite firstn_all2 by (rewrite length_map, length_one_to; lia).
  rewrite map_map. apply in_map_iff. now exists v.
Qed.

(** C3, evaluated on [mn_diagram] with [rows = 2] and every draw 0.  [A]
    has the key sequence [1, 2], [B] has none, so its pool is [1]; the
    lock-step walk stops after [min 2 1 = 1] pair and the padding draws the
    pair [(1, 1)] again: the join table has its 2 lines, and key 2 of [A]
    is in no pair. *)
Theorem join_table_misses_key :
  let ents := fst (parse_puml mn_diagram) in
  let pk := pk_values_of ents 2 in
  pk_get pk "A" = [1; 2]%Z /\
  pk_get pk "B" = [] /\
  nth_error (fst (main mn_diagram 2 (const_rng 0))) 2 =
    Some (mkFile "a_b.csv" ["a_id"; "b_id"]
            [[VInt 1; VInt 1]; [VInt 1; VInt 1]]) /\
  snd (main mn_diagram 2 (const_rng 0)) = None /\
  ~ In (VInt 2) (List.concat [[VInt 1; VInt 1]; [VInt 1; VInt 1]]).
Proof.
  repeat split; try (vm_compute; reflexivity).
  cbn. intros H. repeat destruct H as [H|H]; try discriminate H; exact H.
Qed.

(* ------------------------------------------------------------------ *)
(** ** C6: the Person / Document scenario *)

Lemma entity_written pk persons rows ent cols g :
  (forall c, In c cols -> ~ faulty_column c) ->
  List.length (body (fst (write_entity pk persons rows ent cols g)))
    = Z.to_nat rows /\
  exists g', snd (write_entity pk persons rows ent cols g) = Ok g'.
Proof.
  intros Hcols. unfold write_entity. cbn [fst snd body].
  apply gen_rows_total. intros idx row c g0 Hc.
  destruct (gen_cell pk persons rows ent cols idx row c g0)
    as [[v g1]|f] eqn:E; [now exists v, g1|].
  apply gen_cell_fault in E as (_ & [[E _]|[E _]]);
    exfalso; apply (Hcols c Hc); [now left | now right].
Qed.

Lemma write_entities_cons_ok pk persons rows e c rest g g' :
  snd (write_entity pk persons rows e c g) = Ok g' ->
  write_entities pk persons rows ((e, c) :: rest) g =
  (fst (write_entity pk persons rows e c g)
     :: fst (write_entities pk persons rows rest g'),
   snd (write_entities pk persons rows rest g')).
Proof.
  intros H. cbn [write_entities].
  destruct (write_entity pk persons rows e c g) as [f r].
  simpl in H. subst r. reflexivity.
Qed.

(** C6.  On [person_diagram] with [rows = 3], whatever the draws, the
    run completes and writes [person.csv] and [document.csv];
    [person.csv] has the header [person_id, document_id] and 3 lines, and
    every cell under [document_id] is one of 1, 2, 3. *)
Theorem person_document_scenario g :
  parse_puml person_diagram =
    ([("Person", ["person_id"]); ("Document", ["document_id"])],
     [mkRel "Document" "||--o{" "Person"]) /\
  exists f d,
    main person_diagram 3 g = ([f; d], None) /\
    fname d = "document.csv" /\
    fname f = "person.csv" /\
    header f = ["person_id"; "document_id"] /\
    List.length (body f) = 3 /\
    forall line, In line (body f) ->
      exists v, nth_error line 1 = Some (VInt v) /\ In v [1; 2; 3]%Z.
Proof.
  split; [reflexivity|].
  unfold main.
  change (parse_puml person_diagram) with
    ([("Person", ["person_id"]); ("Document", ["document_id"])],
     [mkRel "Document" "||--o{" "Person"]).
  cbn [fst snd]. unfold generate_csvs. cbv zeta.
  set (ents' := [("Person", ["person_id"; "document_id"]);
                 ("Document", ["document_id"])]).
  change (augment _ _ _) with (ents', @None fault).
  cbv iota.
  set (pk := pk_values_of ents' 3).
  set (ps := make_persons ents' pk g).
  assert (Hperson : forall c, In c ["person_id"; "document_id"] ->
                      ~ faulty_column c).
  { intros c [<-|[<-|[]]] [H|H]; discriminate H. }
  assert (Hdoc : forall c, In c ["document_id"] -> ~ faulty_column c).
  { intros c [<-|[]] [H|H]; discriminate H. }
  destruct (@entity_written pk (fst ps) 3 "Person" _ (snd ps) Hperson)
    as (Hlen & g1 & Hg1).
  destruct (@entity_written pk (fst ps) 3 "Document" _ g1 Hdoc)
    as (_ & g2 & Hg2).
  unfold ents'.
  rewrite (@write_entities_cons_ok _ _ _ _ _ _ _ _ Hg1),
          (@write_entities_cons_ok _ _ _ _ _ _ _ _ Hg2).
  cbn [write_entities fst snd].
  eexists _, _. split; [reflexivity|]. split; [reflexivity|].
  split; [reflexivity|]. split; [reflexivity|]. split; [exact Hlen|].
  intros line Hline. apply In_nth_error in Hline as (n & Hline).
  apply write_entity_cells in Hline as [_ Hcells].
  destruct (Hcells 1 "document_id" eq_refl) as (v & ga & gb & Hv & Hcell).
  destruct (@fk_cell_in_range ents' 3 (fst ps) "Person"
              ["person_id"; "document_id"] n (firstn 1 line) "document_id" ga
              eq_refl eq_refl ltac:(lia)) as (z & g' & Hz & Hin).
  fold pk in Hz. rewrite Hz in Hcell. injection Hcell as <- _.
  exists z. split; [exact Hv | exact Hin].
Qed.

(* ------------------------------------------------------------------ *)
(** ** C10: an entity opened twice *)

(** An entity-opening line stores an empty column list under its name and
    opens the block. *)
Lemma parse_line_open st raw name :
  match_entity (Py.strip raw) = Some name ->
  parse_line st raw = mkP (dset (p_entities st) name []) (p_relations st)
                          (Some name).
Proof.
  unfold parse_line. cbv zeta. generalize (Py.strip raw) as line.
  intros line H. destruct line as [|a l]; [discriminate H|].
  cbn [String.eqb orb]. unfold Py.startswith at 1. cbn [String.prefix].
  destruct (ascii_dec "'" a) as [<-|_].
  - discriminate H.
  - now rewrite H.
Qed.

Lemma parse_relation_keeps st line :
  p_entities (parse_relation st line) = p_entities st /\
  p_current (parse_relation st line) = p_current st.
Proof.
  unfold parse_relation. destruct (Py.contains line "--"); [|now split].
  destruct (Py.re_split Py.is_space line) as [|l [|c [|r rest]]]; now split.
Qed.

Lemma dget_append_col ents cur col name :
  dget (append_col ents cur col) name =
  if String.eqb cur name
  then option_map (fun cols => cols ++ [col]) (dget ents name)
  else dget ents name.
Proof.
  unfold append_col. destruct (String.eqb_spec cur name) as [->|Hne].
  - destruct (dget ents name) as [cols|] eqn:E; simpl.
    + apply dget_dset_same.
    + exact E.
  - destruct (dget ents cur); [|reflexivity].
    now apply dget_dset_other.
Qed.

(** The column list of [name] and the open block after a line depend only
    on those two before it. *)
Lemma parse_line_agree name s1 s2 raw :
  p_current s1 = p_current s2 ->
  dget (p_entities s1) name = dget (p_entities s2) name ->
  p_current (parse_line s1 raw) = p_current (parse_line s2 raw) /\
  dget (p_entities (parse_line s1 raw)) name
    = dget (p_entities (parse_line s2 raw)) name.
Proof.
  intros Hc He. unfold parse_line. cbv zeta. rewrite <- Hc.
  destruct (_ || _); [now split|].
  destruct (match_entity (Py.strip raw)) as [n|]; cbn [p_current p_entities].
  - split; [reflexivity|].
    destruct (String.eqb_spec n name) as [->|Hne].
    + now rewrite !dget_dset_same.
    + now rewrite !dget_dset_other.
  - destruct (p_current s1) as [cur|] eqn:E1.
    + destruct (Py.startswith (Py.strip raw) "}"); [now split|].
      destruct (Py.contains (Py.strip raw) ":").
      * destruct (_ && _); cbn [p_current p_entities];
          [|split; [congruence | assumption]].
        split; [reflexivity|]. rewrite !dget_append_col, He. reflexivity.
      * destruct (parse_relation_keeps s1 (Py.strip raw)) as [-> ->].
        destruct (parse_relation_keeps s2 (Py.strip raw)) as [-> ->].
        split; [congruence | assumption].
    + destruct (parse_relation_keeps s1 (Py.strip raw)) as [-> ->].
      destruct (parse_relation_keeps s2 (Py.strip raw)) as [-> ->].
      split; [congruence | assumption].
Qed.

Lemma parse_from_agree name lines : forall s1 s2,
  p_current s1 = p_current s2 ->
  dget (p_entities s1) name = dget (p_entities s2) name ->
  dget (p_entities (parse_from s1 lines)) name
    = dget (p_entities (parse_from s2 lines)) name.
Proof.
  unfold parse_from. induction lines as [|raw rest IH]; intros s1 s2 Hc He.
  - exact He.
  - simpl. destruct (parse_line_agree name s1 s2 raw Hc He) as [Hc' He'].
    now apply IH.
Qed.

(** C10.  A line that opens entity [name] leaves [name] with the empty
    column list and its block open, whatever was collected before; hence
    the parser's output for [name] is the one obtained from that line
    onward, and the attributes of every earlier block of [name] are gone. *)
Theorem reopened_entity_forgets_earlier_block before raw after name :
  match_entity (Py.strip raw) = Some name ->
  (forall st,
     dget (p_entities (parse_line st raw)) name = Some [] /\
     p_current (parse_line st raw) = Some name) /\
  dget (fst (parse_puml (before ++ raw :: after))) name
    = dget (fst (parse_puml (raw :: after))) name.
Proof.
  intros H. split.
  - intros st. rewrite (parse_line_open st _ H). cbn [p_entities p_current].
    split; [apply dget_dset_same | reflexivity].
  - unfold parse_puml, parse_from. cbn [fst].
    rewrite fold_left_app. cbn [fold_left].
    apply parse_from_agree; rewrite !(parse_line_open _ _ H);
      cbn [p_entities p_current]; [reflexivity|].
    now rewrite !dget_dset_same.
Qed.

Lemma reopened_entity_forgets_earlier_block_witness :
  dget (fst (parse_puml reopened_diagram)) "A" = Some ["y"] /\
  (forall st,
     dget (p_entities (parse_line st "entity A {")) "A" = Some [] /\
     p_current (parse_line st "entity A {") = Some "A").
Proof.
  destruct (@reopened_entity_forgets_earlier_block
              ["entity A {"; "  x: int"; "}"] "entity A {" ["  y: int"; "}"]
              "A" eq_refl) as [Hstep Hrun].
  split; [|exact Hstep].
  change (reopened_diagram)
    with (["entity A {"; "  x: int"; "}"] ++ "entity A {" :: ["  y: int"; "}"]).
  rewrite Hrun. reflexivity.
Defined.


(* ================================================================== *)
(** * Further properties of the script *)

(* ------------------------------------------------------------------ *)
(** ** The parser *)

Lemma In_dset {V} (d : dict V) k v k' v' :
  In (k', v') (dset d k v) -> (k' = k /\ v' = v) \/ In (k', v') d.
Proof.
  induction d as [|[k0 v0] d IH]; simpl.
  - intros [[= <- <-]|[]]. now left.
  - destruct (String.eqb_spec k0 k) as [->|Hne]; simpl.
    + intros [[= <- <-]|H]; [now left | right; now right].
    + intros [H|H]; [right; now left|].
      destruct (IH H) as [H'|H']; [now left | right; now right].
Qed.

Lemma sforall_take_while p s : sforall p (Py.take_while p s) = true.
Proof.
  induction s as [|a s IH]; simpl; [reflexivity|].
  destruct (p a) eqn:E; simpl; [now rewrite E | reflexivity].
Qed.

Lemma match_entity_word line name :
  match_entity line = Some name ->
  name <> "" /\ sforall Py.is_word name = true.
Proof.
  unfold match_entity. destruct (Py.startswith line "entity"); [|discriminate].
  destruct (_ <? _); [|discriminate].
  pose proof (sforall_take_while Py.is_word
                (Py.drop_while Py.is_space (Py.sdrop 6 line))) as Hw.
  destruct (Py.take_while Py.is_word _) as [|a t]; [discriminate|].
  intros [= <-]. split; [discriminate | exact Hw].
Qed.

Lemma parse_relation_entities st line :
  p_entities (parse_relation st line) = p_entities st.
Proof. apply parse_relation_keeps. Qed.

(** A property of entity names and one of column names that every line of
    the parser preserves. *)
Section ParserInvariant.

Variable P : string -> Prop.
Variable Q : string -> Prop.
Hypothesis P_open : forall line name, match_entity line = Some name -> P name.
Hypothesis Q_attr : forall line,
  let col := Py.strip (Py.before_first ":" line) in
  negb (String.eqb col "") && negb (String.eqb col "--") = true -> Q col.


Lemma parse_line_ok st raw :
  (forall e cols, In (e, cols) (p_entities st) ->
     P e /\ forall c, In c cols -> Q c) -> (forall e cols, In (e, cols) (p_entities (parse_line st raw)) ->
     P e /\ forall c, In c cols -> Q c).
Proof.
  intros H. unfold parse_line. cbv zeta.
  destruct (_ || _); [exact H|].
  destruct (match_entity (Py.strip raw)) as [n|] eqn:En; cbn [p_entities].
  - intros e cols Hin. apply In_dset in Hin as [[-> ->]|Hin]; [|now apply H].
    split; [eapply P_open; eassumption | intros c []].
  - destruct (p_current st) as [cur|];
      [|now rewrite parse_relation_entities].
    destruct (Py.startswith (Py.strip raw) "}"); [exact H|].
    destruct (Py.contains (Py.strip raw) ":");
      [|now rewrite parse_relation_entities].
    destruct (_ && _) eqn:Eg; [|exact H]. cbn [p_entities].
    unfold append_col.
    destruct (dget (p_entities st) cur) as [old|] eqn:Ec; [|exact H].
    intros e cols Hin. apply In_dset in Hin as [[-> ->]|Hin]; [|now apply H].
    apply dget_In in Ec. destruct (H _ _ Ec) as [HP HQ].
    split; [exact HP|]. intros c Hc. apply in_app_or in Hc as [Hc|[<-|[]]].
    + now apply HQ.
    + now apply Q_attr.
Qed.

Lemma parse_puml_ok lines : (forall e cols, In (e, cols) (fst (parse_puml lines)) ->
     P e /\ forall c, In c cols -> Q c).
Proof.
  unfold parse_puml, parse_from. cbn [fst].
  assert (G : forall st, (forall e cols, In (e, cols) (p_entities st) ->
     P e /\ forall c, In c cols -> Q c) ->
            (forall e cols, In (e, cols) (p_entities (fold_left parse_line lines st)) ->
     P e /\ forall c, In c cols -> Q c)).
  { induction lines as [|raw rest IH]; intros st H; [exact H|].
    simpl. apply IH. now apply parse_line_ok. }
  apply G. intros e cols [].
Qed.

End ParserInvariant.

Lemma sforall_rev_onto p s acc :
  sforall p s = true -> sforall p acc = true ->
  sforall p (Py.rev_onto s acc) = true.
Proof.
  revert acc. induction s as [|a s IH]; intros acc Hs Ha; simpl; [exact Ha|].
  simpl in Hs. apply andb_true_iff in Hs as [H1 H2].
  apply IH; [exact H2|]. simpl. now rewrite H1.
Qed.

Lemma sforall_drop_while p q s :
  sforall p s = true -> sforall p (Py.drop_while q s) = true.
Proof.
  induction s as [|a s IH]; simpl; [trivial|].
  intros H. destruct (q a); [|exact H].
  apply andb_true_iff in H as [_ H]. now apply IH.
Qed.

Lemma sforall_strip p s : sforall p s = true -> sforall p (Py.strip s) = true.
Proof.
  intros H. unfold Py.strip, Py.srev.
  apply sforall_rev_onto; [|reflexivity]. apply sforall_drop_while.
  apply sforall_rev_onto; [|reflexivity]. now apply sforall_drop_while.
Qed.

Lemma sforall_before_first sep s :
  sforall (fun a => negb (Ascii.eqb a sep)) (Py.before_first sep s) = true.
Proof.
  induction s as [|a s IH]; simpl; [reflexivity|].
  destruct (Ascii.eqb a sep) eqn:E; simpl; [reflexivity|].
  now rewrite E, IH.
Qed.

(** X1.  Every entity name the parser returns is a non-empty word over
    [A-Za-z0-9_]. *)
Theorem parsed_entity_names_are_words lines e :
  In e (keys (fst (parse_puml lines))) ->
  e <> "" /\ sforall Py.is_word e = true.
Proof.
  intros H. unfold keys in H. apply in_map_iff in H as ([e' cols] & <- & Hin).
  pose proof (@parse_puml_ok
    (fun n => n <> "" /\ sforall Py.is_word n = true) (fun _ => True)
    match_entity_word (fun _ _ => I) lines) as Hok.
  exact (proj1 (Hok _ _ Hin)).
Qed.

Lemma parsed_entity_names_are_words_witness :
  "Citation" <> "" /\ sforall Py.is_word "Citation" = true.
Proof.
  apply (@parsed_entity_names_are_words cites_diagram "Citation").
  vm_compute. auto.
Defined.

(** X2.  Every column name the parser returns is non-empty, is not the
    separator [--], and holds no colon. *)
Theorem parsed_columns_are_names lines e cols c :
  In (e, cols) (fst (parse_puml lines)) ->
  In c cols ->
  c <> "" /\ c <> "--" /\
  sforall (fun a => negb (Ascii.eqb a ":")) c = true.
Proof.
  intros Hin Hc.
  pose proof (@parse_puml_ok (fun _ => True)
    (fun c => c <> "" /\ c <> "--" /\
              sforall (fun a => negb (Ascii.eqb a ":")) c = true)
    (fun _ _ _ => I)) as Hok.
  refine (proj2 (Hok _ lines _ _ Hin) c Hc).
  intros line col Hg. apply andb_true_iff in Hg as [H1 H2].
  apply negb_true_iff in H1, H2.
  apply String.eqb_neq in H1, H2.
  repeat split; [exact H1 | exact H2 |].
  apply sforall_strip, sforall_before_first.
Qed.

Lemma parsed_columns_are_names_witness :
  "volume" <> "" /\ "volume" <> "--" /\
  sforall (fun a => negb (Ascii.eqb a ":")) "volume" = true.
Proof.
  apply (@parsed_columns_are_names cites_diagram "Issue"
           ["issue_id"; "volume"] "volume").
  - vm_compute. auto 10.
  - right. now left.
Defined.

(** X3.  Blank lines and comment lines have no effect: removing them from
    the input leaves the parser's result unchanged. *)
Theorem comments_and_blanks_ignored lines :
  parse_puml (filter (fun raw => negb (skipped_line raw)) lines)
  = parse_puml lines.
Proof.
  unfold parse_puml, parse_from.
  assert (G : forall st,
    fold_left parse_line (filter (fun raw => negb (skipped_line raw)) lines) st
    = fold_left parse_line lines st).
  { induction lines as [|raw rest IH]; intros st; [reflexivity|].
    simpl. destruct (skipped_line raw) eqn:E; simpl.
    - rewrite IH. f_equal. unfold parse_line. cbv zeta.
      unfold skipped_line in E. now rewrite E.
    - apply IH. }
  now rewrite G.
Qed.

(* ------------------------------------------------------------------ *)
(** ** The association set *)

(** X4.  An entity is in the set returned by [detect_assoc_entities]
    exactly when it is declared with at least one column and occurs at least
    twice as an endpoint of the edges. *)
Theorem assoc_set_characterised ents rels e :
  In e (detect_assoc_entities ents rels) <->
  exists cols, In (e, cols) ents /\ cols <> [] /\ 2 <= endpoint_count rels e.
Proof.
  unfold detect_assoc_entities. rewrite in_map_iff. split.
  - intros ([e' cols] & <- & H). apply filter_In in H as [Hin Hf].
    cbn [fst snd] in *. rewrite degrees_count in Hf.
    apply andb_true_iff in Hf as [H1 H2].
    apply Nat.ltb_lt in H1. apply Nat.leb_le in H2.
    exists cols. repeat split; [exact Hin | | exact H2].
    intros ->. simpl in H1. lia.
  - intros (cols & Hin & Hne & Hdeg). exists (e, cols). split; [reflexivity|].
    apply filter_In. split; [exact Hin|]. cbn [fst snd].
    rewrite degrees_count. apply andb_true_iff. split.
    + apply Nat.ltb_lt. destruct cols; [congruence | simpl; lia].
    + now apply Nat.leb_le.
Qed.

(* ------------------------------------------------------------------ *)
(** ** The augmentation loop *)

Lemma augment_edge_target assoc ents r :
  augment_edge assoc ents r =
  match edge_target assoc r with
  | None => Ok ents
  | Some (t, fk) => add_fk ents t fk
  end.
Proof.
  unfold augment_edge, edge_target.
  repeat match goal with
  | |- context [if ?b then _ else _] => destruct b
  end; reflexivity.
Qed.

Lemma edge_target_endpoint assoc r t fk :
  edge_target assoc r = Some (t, fk) ->
  is_mn (connector r) = false /\
  ((t = left r /\ fk = fk_name (right r)) \/
   (t = right r /\ fk = fk_name (left r))).
Proof.
  unfold edge_target.
  destruct (is_mn (connector r)); [discriminate|].
  repeat match goal with
  | |- context [if ?b then _ else _] => destruct b
  end; intros [= <- <-]; auto.
Qed.

Lemma dget_None_keys {V} (d : dict V) k : dget d k = None <-> ~ In k (keys d).
Proof.
  induction d as [|[k' v] d IH]; simpl; [tauto|].
  destruct (String.eqb_spec k' k) as [->|Hne].
  - split; [discriminate | intros H; exfalso; apply H; now left].
  - rewrite IH. split; [intros H [E|E]; [congruence | tauto] | tauto].
Qed.

Lemma add_fk_keys ents t fk ents' :
  add_fk ents t fk = Ok ents' -> keys ents' = keys ents.
Proof.
  unfold add_fk. destruct (dget ents t) as [cols|] eqn:E; [|discriminate].
  intros [= <-]. destruct (Py.mem fk cols); [reflexivity|].
  rewrite keys_dset.
  destruct (Py.mem t (keys ents)) eqn:Em; [reflexivity|].
  exfalso. assert (Hin : In t (keys ents)).
  { apply dget_In in E. unfold keys. now apply (in_map fst _ (t, cols)). }
  apply PyFacts.mem_In in Hin. congruence.
Qed.

Lemma augment_edge_keys assoc ents r ents' :
  augment_edge assoc ents r = Ok ents' -> keys ents' = keys ents.
Proof.
  rewrite augment_edge_target.
  destruct (edge_target assoc r) as [[t fk]|]; [apply add_fk_keys|].
  now intros [= <-].
Qed.

(** X5.  The augmentation loop never creates, removes or reorders an
    entity: the entity names after the loop are those before it, whether
    the loop completes or is cut short. *)
Theorem augmentation_keeps_entities assoc rels ents :
  keys (fst (augment assoc ents rels)) = keys ents.
Proof.
  revert ents. induction rels as [|r rs IH]; intros ents; simpl;
    [reflexivity|].
  destruct (augment_edge assoc ents r) as [ents1|f] eqn:E; [|reflexivity].
  rewrite IH. eapply augment_edge_keys; eassumption.
Qed.

Lemma augment_passes assoc rels ents :
  (forall r, In r rels -> edge_target assoc r = None) ->
  augment assoc ents rels = (ents, None).
Proof.
  induction rels as [|r rs IH]; intros H; simpl; [reflexivity|].
  rewrite augment_edge_target, (H r (or_introl eq_refl)).
  apply IH. intros r' Hr'. apply H. now right.
Qed.

(** X6.  When every edge is many-to-many or touches a member of the
    association set, the loop changes nothing and cannot fault, even if the
    edges name entities that no block declares. *)
Theorem passed_over_edges_change_nothing assoc rels ents :
  (forall r, In r rels ->
     is_mn (connector r) = true \/
     Py.mem (left r) assoc = true \/ Py.mem (right r) assoc = true) ->
  augment assoc ents rels = (ents, None).
Proof.
  intros H. apply augment_passes. intros r Hr. unfold edge_target.
  destruct (H r Hr) as [-> | [E | E]]; [reflexivity | |];
    destruct (is_mn (connector r)); try reflexivity; rewrite E;
    [reflexivity | now rewrite orb_true_r].
Qed.

Lemma passed_over_edges_change_nothing_witness :
  augment [] [] [mkRel "Ghost" "}o--o{" "Phantom"] = ([], None).
Proof.
  apply (@passed_over_edges_change_nothing [] [mkRel "Ghost" "}o--o{" "Phantom"] []).
  intros r [<-|[]]. now left.
Defined.

(** A fault of the loop is the [KeyError] of an endpoint that is not an
    entity. *)
Lemma augment_fault_inv assoc rels : forall ents f,
  snd (augment assoc ents rels) = Some f ->
  exists r k,
    In r rels /\ (k = left r \/ k = right r) /\
    f = KeyError k /\ ~ In k (keys ents).
Proof.
  induction rels as [|r rs IH]; intros ents f; simpl; [discriminate|].
  destruct (augment_edge assoc ents r) as [ents1|f0] eqn:E.
  - intros H. apply IH in H as (r' & k & Hin & Hk & Hf & Hnk).
    exists r', k. repeat split; [now right | exact Hk | exact Hf |].
    now rewrite <- (augment_edge_keys _ _ _ E).
  - cbn [snd]. intros [= <-]. rewrite augment_edge_target in E.
    destruct (edge_target assoc r) as [[t fk]|] eqn:Et; [|discriminate].
    apply edge_target_endpoint in Et as [_ Ht].
    unfold add_fk in E. destruct (dget ents t) eqn:Eg; [discriminate|].
    injection E as <-. exists r, t. repeat split; [now left | | ].
    + destruct Ht as [[-> _]|[-> _]]; auto.
    + now apply dget_None_keys.
Qed.

(** X7.  The only fault of the augmentation loop is the [KeyError] of an
    edge endpoint that no entity block declares. *)
Theorem augmentation_fault_is_undeclared_endpoint assoc rels ents f :
  snd (augment assoc ents rels) = Some f ->
  exists r k,
    In r rels /\ (k = left r \/ k = right r) /\
    f = KeyError k /\ ~ In k (keys ents).
Proof. apply augment_fault_inv. Qed.

Lemma augmentation_fault_is_undeclared_endpoint_witness :
  exists r k,
    In r (snd (parse_puml undeclared_diagram)) /\
    (k = left r \/ k = right r) /\
    KeyError "Paper" = KeyError k /\
    ~ In k (keys (fst (parse_puml undeclared_diagram))).
Proof.
  apply (@augmentation_fault_is_undeclared_endpoint
           (detect_assoc_entities (fst (parse_puml undeclared_diagram))
                                  (snd (parse_puml undeclared_diagram)))
           (snd (parse_puml undeclared_diagram))
           (fst (parse_puml undeclared_diagram)) (KeyError "Paper")).
  reflexivity.
Defined.

(** X8.  When both endpoints of every edge are declared entities, the
    augmentation loop completes. *)
Theorem declared_endpoints_augment assoc rels ents :
  (forall r, In r rels ->
     In (left r) (keys ents) /\ In (right r) (keys ents)) ->
  snd (augment assoc ents rels) = None.
Proof.
  intros H. destruct (snd (augment assoc ents rels)) as [f|] eqn:E;
    [|reflexivity].
  apply augment_fault_inv in E as (r & k & Hr & Hk & _ & Hnk).
  destruct (H r Hr) as [Hl Hrr]. destruct Hk as [-> | ->]; contradiction.
Qed.

Lemma declared_endpoints_augment_witness :
  snd (augment [] (fst (parse_puml person_diagram))
               (snd (parse_puml person_diagram))) = None.
Proof.
  apply (@declared_endpoints_augment [] (snd (parse_puml person_diagram))
           (fst (parse_puml person_diagram))).
  intros r [<-|[]]. vm_compute. auto.
Defined.

Lemma add_fk_extra ents t fk ents' e cols :
  add_fk ents t fk = Ok ents' ->
  dget ents e = Some cols ->
  exists extra,
    dget ents' e = Some (cols ++ extra) /\
    forall c, In c extra -> e = t /\ c = fk.
Proof.
  unfold add_fk. destruct (dget ents t) as [tc|] eqn:Et; [|discriminate].
  intros [= <-] He. destruct (Py.mem fk tc).
  - exists []. rewrite app_nil_r. split; [exact He | intros c []].
  - destruct (String.eqb_spec t e) as [->|Hne].
    + rewrite dget_dset_same. assert (tc = cols) by congruence. subst tc.
      exists [fk]. split; [reflexivity|]. intros c [<-|[]]. now split.
    + rewrite dget_dset_other by assumption.
      exists []. rewrite app_nil_r. split; [exact He | intros c []].
Qed.

(** X9.  Every column the augmentation loop appends to an entity is the
    lowered name of the opposite endpoint of an edge at that entity,
    followed by [_id]; the edge is not many-to-many. *)
Theorem appended_columns_name_neighbours assoc rels ents e cols :
  dget ents e = Some cols ->
  exists extra,
    dget (fst (augment assoc ents rels)) e = Some (cols ++ extra) /\
    forall c, In c extra ->
      exists r, In r rels /\ is_mn (connector r) = false /\
        ((e = left r /\ c = fk_name (right r)) \/
         (e = right r /\ c = fk_name (left r))).
Proof.
  revert ents cols. induction rels as [|r rs IH]; intros ents cols He; simpl.
  - exists []. rewrite app_nil_r. split; [exact He | intros c []].
  - destruct (augment_edge assoc ents r) as [ents1|f] eqn:E; cbn [fst].
    + rewrite augment_edge_target in E.
      assert (H1 : exists x1, dget ents1 e = Some (cols ++ x1) /\
                forall c, In c x1 ->
                  is_mn (connector r) = false /\
                  ((e = left r /\ c = fk_name (right r)) \/
                   (e = right r /\ c = fk_name (left r)))).
      { destruct (edge_target assoc r) as [[t fk]|] eqn:Et.
        - destruct (add_fk_extra _ _ _ e E He) as (x1 & Hx & Hc).
          exists x1. split; [exact Hx|]. intros c Hin.
          destruct (Hc c Hin) as [-> ->].
          apply edge_target_endpoint in Et. exact Et.
        - injection E as <-. exists []. rewrite app_nil_r.
          split; [exact He | intros c []]. }
      destruct H1 as (x1 & Hx1 & Hc1).
      destruct (IH ents1 _ Hx1) as (x2 & Hx2 & Hc2).
      exists (x1 ++ x2). rewrite app_assoc. split; [exact Hx2|].
      intros c Hin. apply in_app_or in Hin as [Hin|Hin].
      * exists r. destruct (Hc1 c Hin) as [Hmn Hside].
        repeat split; [now left | exact Hmn | exact Hside].
      * destruct (Hc2 c Hin) as (r' & Hr' & H').
        exists r'. split; [now right | exact H'].
    + exists []. rewrite app_nil_r. split; [exact He | intros c []].
Qed.

Lemma appended_columns_name_neighbours_witness :
  exists extra,
    dget (fst (augment [] (fst (parse_puml person_diagram))
                       (snd (parse_puml person_diagram)))) "Person"
      = Some (["person_id"] ++ extra) /\
    forall c, In c extra ->
      exists r, In r (snd (parse_puml person_diagram)) /\
        is_mn (connector r) = false /\
        (("Person" = left r /\ c = fk_name (right r)) \/
         ("Person" = right r /\ c = fk_name (left r))).
Proof.
  apply (@appended_columns_name_neighbours [] (snd (parse_puml person_diagram))
           (fst (parse_puml person_diagram)) "Person" ["person_id"]).
  reflexivity.
Defined.

(** The column an edge appends is present after the edge, and stays
    present through later edges. *)
Lemma add_fk_present ents t fk ents' :
  add_fk ents t fk = Ok ents' ->
  exists cols, dget ents' t = Some cols /\ Py.mem fk cols = true.
Proof.
  unfold add_fk. destruct (dget ents t) as [tc|] eqn:Et; [|discriminate].
  intros [= <-]. destruct (Py.mem fk tc) eqn:Em.
  - now exists tc.
  - exists (tc ++ [fk]). rewrite dget_dset_same. split; [reflexivity|].
    apply PyFacts.mem_In, in_or_app. right. now left.
Qed.

Lemma present_add_fk ents t fk :
  (exists cols, dget ents t = Some cols /\ Py.mem fk cols = true) ->
  add_fk ents t fk = Ok ents.
Proof.
  intros (cols & Hg & Hm). unfold add_fk. now rewrite Hg, Hm.
Qed.

Lemma present_kept assoc rels : forall ents t fk,
  (exists cols, dget ents t = Some cols /\ Py.mem fk cols = true) ->
  exists cols,
    dget (fst (augment assoc ents rels)) t = Some cols /\
    Py.mem fk cols = true.
Proof.
  intros ents t fk (cols & Hg & Hm).
  destruct (augment_cols assoc rels ents t) as [_ Hs].
  destruct (Hs cols Hg) as (extra & Hg' & _).
  exists (cols ++ extra). split; [exact Hg'|].
  apply PyFacts.mem_In, in_or_app. left. now apply PyFacts.mem_In.
Qed.

Lemma augment_settled assoc rels : forall ents ents',
  augment assoc ents rels = (ents', None) ->
  forall r t fk, In r rels -> edge_target assoc r = Some (t, fk) ->
    exists cols, dget ents' t = Some cols /\ Py.mem fk cols = true.
Proof.
  induction rels as [|r rs IH]; intros ents ents' H r' t fk Hin Ht;
    [destruct Hin|].
  simpl in H.
  destruct (augment_edge assoc ents r) as [ents1|f] eqn:E; [|discriminate].
  destruct Hin as [<-|Hin].
  - rewrite augment_edge_target, Ht in E. apply add_fk_present in E.
    pose proof (@present_kept assoc rs ents1 t fk E) as Hk.
    now rewrite H in Hk.
  - eapply IH; eassumption.
Qed.

(** X10.  The augmentation loop is idempotent: run again on its own
    result, with the same association set and edges, it appends nothing and
    completes. *)
Theorem augmentation_idempotent assoc rels ents ents' :
  augment assoc ents rels = (ents', None) ->
  augment assoc ents' rels = (ents', None).
Proof.
  intros H. pose proof (@augment_settled assoc rels ents ents' H) as Hs.
  clear H. induction rels as [|r rs IH]; simpl; [reflexivity|].
  rewrite augment_edge_target.
  destruct (edge_target assoc r) as [[t fk]|] eqn:Et.
  - rewrite (@present_add_fk ents' t fk (Hs r t fk (or_introl eq_refl) Et)).
    apply IH. intros r' t' fk' Hin. apply Hs. now right.
  - apply IH. intros r' t' fk' Hin. apply Hs. now right.
Qed.

Lemma augmentation_idempotent_witness :
  augment [] [("Person", ["person_id"; "document_id"]);
              ("Document", ["document_id"])]
          (snd (parse_puml person_diagram))
  = ([("Person", ["person_id"; "document_id"]);
      ("Document", ["document_id"])], None).
Proof.
  apply (@augmentation_idempotent [] (snd (parse_puml person_diagram))
           (fst (parse_puml person_diagram))).
  reflexivity.
Defined.

(* ------------------------------------------------------------------ *)
(** ** Key sequences and key picks *)

Lemma first_id_col_existsb cols :
  match first_id_col cols with
  | Some c => In c cols /\ Py.endswith (Py.lower c) "_id" = true
  | None => existsb (fun c => Py.endswith (Py.lower c) "_id") cols = false
  end.
Proof.
  induction cols as [|c cs IH]; simpl; [reflexivity|].
  destruct (Py.endswith (Py.lower c) "_id") eqn:E; [now split; [left|]|].
  destruct (first_id_col cs); simpl; [|exact IH].
  destruct IH as [H1 H2]. split; [now right | exact H2].
Qed.

Lemma ent_id_col_existsb ent cols :
  match ent_id_col ent cols with
  | Some c => In c cols /\ Py.endswith (Py.lower c) "_id" = true
  | None => existsb (fun c => Py.endswith (Py.lower c) "_id") cols = false
  end.
Proof.
  unfold ent_id_col.
  destruct (Py.index (fk_name ent) (map Py.lower cols)) as [i|] eqn:E;
    [|apply first_id_col_existsb].
  apply PyFacts.index_Some in E. rewrite nth_error_map in E.
  destruct (nth_error cols i) as [c|] eqn:Ec; [|discriminate].
  injection E as E. split; [eapply nth_error_In; eassumption|].
  rewrite E. apply PyFacts.endswith_app.
Qed.

(** X11.  An entity has the key sequence [1..rows] exactly when one of
    its columns ends in [_id] up to letter case, and the empty sequence
    otherwise. *)
Theorem key_sequence_by_id_suffix ent cols rows :
  pk_seq ent cols rows =
  if existsb (fun c => Py.endswith (Py.lower c) "_id") cols
  then one_to rows else [].
Proof.
  pose proof (ent_id_col_existsb ent cols) as H. unfold pk_seq.
  destruct (ent_id_col ent cols) as [c|] eqn:E.
  - destruct H as [Hin Hs].
    assert (Hex : existsb (fun c => Py.endswith (Py.lower c) "_id") cols = true)
      by (apply existsb_exists; now exists c).
    rewrite Hex. destruct (String.eqb_spec c ""); [|reflexivity].
    now apply ent_id_col_named in E.
  - now rewrite H.
Qed.

(** X12.  [pick_pk_for_ref] draws from the first entry, in dictionary
    order, whose lowered key is the lowered reference and whose sequence is
    not empty. *)
Theorem pick_pk_for_ref_first_match before k vals after ref rows g :
  Py.lower k = Py.lower ref ->
  vals <> [] ->
  (forall k' v', In (k', v') before ->
     Py.lower k' = Py.lower ref -> v' = []) ->
  In (fst (pick_pk_for_ref (before ++ (k, vals) :: after) ref rows g)) vals.
Proof.
  intros Hk Hne Hbefore.
  induction before as [|[k0 v0] rest IH]; cbn [pick_pk_for_ref app].
  - rewrite Hk, String.eqb_refl.
    destruct vals as [|z l] eqn:E; [congruence|].
    rewrite <- E. apply choice_In. congruence.
  - assert (IH' := IH (fun k' v' H => Hbefore k' v' (or_intror H))).
    destruct (String.eqb_spec (Py.lower k0) (Py.lower ref)) as [E0|_];
      [|exact IH'].
    rewrite (Hbefore k0 v0 (or_introl eq_refl) E0). exact IH'.
Qed.

Lemma pick_pk_for_ref_first_match_witness :
  In (fst (pick_pk_for_ref
             [("journal", []); ("Journal", [4; 5]%Z); ("JOURNAL", [9]%Z)]
             "journal" 3 (const_rng 1))) [4; 5]%Z.
Proof.
  apply (@pick_pk_for_ref_first_match [("journal", [])] "Journal" [4; 5]%Z
           [("JOURNAL", [9]%Z)] "journal" 3 (const_rng 1)).
  - reflexivity.
  - discriminate.
  - intros k' v' [[= <- <-]|[]] _. reflexivity.
Defined.

(** X13.  When no entry with a non-empty sequence matches the reference,
    [pick_pk_for_ref] returns an integer between 1 and [max 1 rows]. *)
Theorem pick_pk_for_ref_fallback pk ref rows g :
  (forall k v, In (k, v) pk -> Py.lower k = Py.lower ref -> v = []) ->
  (1 <= fst (pick_pk_for_ref pk ref rows g) <= Z.max 1 rows)%Z.
Proof.
  intros H. induction pk as [|[k0 v0] rest IH]; cbn [pick_pk_for_ref].
  - apply randint_range. lia.
  - assert (IH' := IH (fun k v Hin => H k v (or_intror Hin))).
    destruct (String.eqb_spec (Py.lower k0) (Py.lower ref)) as [E0|_];
      [|exact IH'].
    rewrite (H k0 v0 (or_introl eq_refl) E0). exact IH'.
Qed.

Lemma pick_pk_for_ref_fallback_witness :
  (1 <= fst (pick_pk_for_ref [("Journal", [4; 5]%Z); ("Event", [])]
               "event" (-3) (const_rng 8)) <= Z.max 1 (-3))%Z.
Proof.
  apply (@pick_pk_for_ref_fallback [("Journal", [4; 5]%Z); ("Event", [])]
           "event" (-3) (const_rng 8)).
  intros k v [[= <- <-]|[[= <- <-]|[]]] E; [discriminate E | reflexivity].
Defined.

(* ------------------------------------------------------------------ *)
(** ** The advisor / student retry *)

Lemma cursor_randbelow n g : cursor (snd (randbelow n g)) = S (cursor g).
Proof. reflexivity. Qed.

Lemma cursor_pick_pk pk rows e g :
  cursor (snd (pick_pk pk rows e g)) = S (cursor g).
Proof. unfold pick_pk. now destruct (pk_get pk e). Qed.

Lemma resample_cursor pk rows e a n : forall s g,
  cursor (snd (resample n (pick_pk pk rows e) (Some a) s g)) <= cursor g + n /\
  (same_text (fst (resample n (pick_pk pk rows e) (Some a) s g)) a = true ->
   cursor (snd (resample n (pick_pk pk rows e) (Some a) s g)) = cursor g + n).
Proof.
  induction n as [|n IH]; intros s g; cbn [resample].
  - unfold retR. cbn [fst snd]. split; lia.
  - destruct (same_text s a) eqn:E.
    + unfold bindR.
      destruct (IH (fst (pick_pk pk rows e g)) (snd (pick_pk pk rows e g)))
        as [H1 H2].
      rewrite cursor_pick_pk in H1, H2. split; [lia|].
      intros H. rewrite (H2 H). lia.
    + unfold retR. cbn [fst snd]. split; [lia | congruence].
Qed.

(** X14.  The student retry makes at most 10 further picks of a person
    key, and it returns a student whose text equals the advisor's only when
    all 10 were made. *)
Theorem student_retry_bounded pk rows a s g :
  let r := resample 10 (pick_pk pk rows "Person") (Some a) s g in
  cursor (snd r) <= cursor g + 10 /\
  (same_text (fst r) a = true -> cursor (snd r) = cursor g + 10).
Proof. apply resample_cursor. Qed.

Lemma student_retry_bounded_witness :
  let r := resample 10 (pick_pk [("Person", [1; 2]%Z)] 2 "Person")
                    (Some (VInt 1)) 1%Z (const_rng 0) in
  cursor (snd r) <= cursor (const_rng 0) + 10 /\
  (same_text (fst r) (VInt 1) = true ->
   cursor (snd r) = cursor (const_rng 0) + 10).
Proof.
  apply (@student_retry_bounded [("Person", [1; 2]%Z)] 2 (VInt 1) 1%Z
           (const_rng 0)).
Defined.

(* ------------------------------------------------------------------ *)
(** ** The person registry *)

Lemma str_of_Z_inj a b : Py.str_of_Z a = Py.str_of_Z b -> a = b.
Proof.
  unfold Py.str_of_Z. intros H.
  assert (Hn : forall z, Z.to_int z <> Decimal.Pos Decimal.Nil /\
                         Z.to_int z <> Decimal.Neg Decimal.Nil).
  { intros z. split; intros E;
      pose proof (DecimalZ.of_to z) as Hz; rewrite E in Hz; simpl in Hz;
      subst z; discriminate E. }
  apply DecimalZ.to_int_inj.
  assert (Ha := NilZero.isi (Z.to_int a) (proj1 (Hn a)) (proj2 (Hn a))).
  assert (Hb := NilZero.isi (Z.to_int b) (proj1 (Hn b)) (proj2 (Hn b))).
  rewrite H in Ha. congruence.
Qed.

Lemma make_person_good pid g :
  let p := fst (make_person pid g) in
  person_id p = pid /\ In (firstname p) FIRSTNAMES /\
  In (lastname p) LASTNAMES /\ In (other_name p) FIRSTNAMES.
Proof.
  unfold make_person, bindR, retR. cbn [fst snd person_id firstname lastname
                                         other_name].
  repeat split; apply choice_In; discriminate.
Qed.

Lemma make_persons_loop_inv pids : forall acc g,
  (forall key p, dget acc key = Some p ->
     key = Py.str_of_Z (person_id p) /\ In (firstname p) FIRSTNAMES /\
     In (lastname p) LASTNAMES /\ In (other_name p) FIRSTNAMES) ->
  (forall key p, dget (fst (make_persons_loop pids acc g)) key = Some p ->
     key = Py.str_of_Z (person_id p) /\ In (firstname p) FIRSTNAMES /\
     In (lastname p) LASTNAMES /\ In (other_name p) FIRSTNAMES) /\
  (forall key, dget acc key <> None ->
     dget (fst (make_persons_loop pids acc g)) key <> None) /\
  (forall pid, In pid pids ->
     dget (fst (make_persons_loop pids acc g)) (Py.str_of_Z pid) <> None).
Proof.
  induction pids as [|pid rest IH]; intros acc g Hacc; cbn [make_persons_loop].
  - unfold retR. cbn [fst]. split; [exact Hacc|].
    split; [trivial | intros ? []].
  - unfold bindR.
    set (p := fst (make_person pid g)). set (g1 := snd (make_person pid g)).
    assert (Hacc' : forall key q,
              dget (dset acc (Py.str_of_Z pid) p) key = Some q ->
              key = Py.str_of_Z (person_id q) /\ In (firstname q) FIRSTNAMES /\
              In (lastname q) LASTNAMES /\ In (other_name q) FIRSTNAMES).
    { intros key q.
      destruct (String.eqb_spec (Py.str_of_Z pid) key) as [<-|Hne].
      - rewrite dget_dset_same. intros [= <-].
        destruct (make_person_good pid g) as (H1 & H2). fold p in H1, H2.
        rewrite H1. now split.
      - rewrite dget_dset_other by assumption. apply Hacc. }
    destruct (IH (dset acc (Py.str_of_Z pid) p) g1 Hacc') as (I1 & I2 & I3).
    split; [exact I1|]. split.
    + intros key Hk. apply I2.
      destruct (String.eqb_spec (Py.str_of_Z pid) key) as [<-|Hne].
      * rewrite dget_dset_same. discriminate.
      * now rewrite dget_dset_other.
    + intros q [<-|Hq]; [|now apply I3].
      apply I2. rewrite dget_dset_same. discriminate.
Qed.

(** X15.  When [Person] is an entity, the registry holds, under the text
    of every key of its sequence, a person with that very key and with
    names drawn from the name pools. *)
Theorem registry_holds_every_key ents pk g cols pids pid :
  dget ents "Person" = Some cols ->
  dget pk "Person" = Some pids ->
  In pid pids ->
  exists p,
    dget (fst (make_persons ents pk g)) (Py.str_of_Z pid) = Some p /\
    person_id p = pid /\ In (firstname p) FIRSTNAMES /\
    In (lastname p) LASTNAMES /\ In (other_name p) FIRSTNAMES.
Proof.
  intros He Hp Hin. unfold make_persons. rewrite He, Hp.
  destruct (@make_persons_loop_inv pids [] g) as (I1 & _ & I3);
    [intros key p; discriminate|].
  specialize (I3 pid Hin).
  destruct (dget (fst (make_persons_loop pids [] g)) (Py.str_of_Z pid))
    as [p|] eqn:E; [|congruence].
  destruct (I1 _ _ E) as (Hk & Hnames).
  exists p. split; [reflexivity|]. split; [|exact Hnames].
  symmetry. now apply str_of_Z_inj.
Qed.

Lemma registry_holds_every_key_witness :
  exists p,
    dget (fst (make_persons [("Person", ["person_id"])]
                            [("Person", [1; 2; 3]%Z)] (const_rng 4)))
         (Py.str_of_Z 2) = Some p /\
    person_id p = 2%Z /\ In (firstname p) FIRSTNAMES /\
    In (lastname p) LASTNAMES /\ In (other_name p) FIRSTNAMES.
Proof.
  apply (@registry_holds_every_key [("Person", ["person_id"])]
           [("Person", [1; 2; 3]%Z)] (const_rng 4) ["person_id"]
           [1; 2; 3]%Z 2%Z).
  - reflexivity.
  - reflexivity.
  - right. now left.
Defined.

(* ------------------------------------------------------------------ *)
(** ** Identifier formats *)

Lemma pad4_four_digits z :
  (0 <= z <= 9999)%Z -> four_digits (Py.pad4 z) = true.
Proof.
  intros H.
  assert (Hall : forallb (fun n => four_digits (Py.pad4 (Z.of_nat n)))
                         (seq 0 (Z.to_nat 10000)) = true)
    by (vm_compute; reflexivity).
  rewrite forallb_forall in Hall.
  specialize (Hall (Z.to_nat z)). rewrite Z2Nat.id in Hall by lia.
  apply Hall. apply in_seq. lia.
Qed.

(** X16.  [make_orcid] returns four groups of four decimal digits joined
    by hyphens. *)
Theorem orcid_format g :
  exists a b c d,
    fst (make_orcid g) = (a ++ "-" ++ b ++ "-" ++ c ++ "-" ++ d)%string /\
    four_digits a = true /\ four_digits b = true /\
    four_digits c = true /\ four_digits d = true.
Proof.
  unfold make_orcid, bindR, retR. cbn [fst snd sjoin String.concat].
  eexists _, _, _, _. split; [reflexivity|].
  repeat split; apply pad4_four_digits; apply randint_range; lia.
Qed.

(** X17.  [make_issn] returns two groups of four decimal digits joined by
    a hyphen. *)
Theorem issn_format g :
  exists a b,
    fst (make_issn g) = (a ++ "-" ++ b)%string /\
    four_digits a = true /\ four_digits b = true.
Proof.
  unfold make_issn, bindR, retR. cbn [fst snd].
  eexists _, _. split; [reflexivity|].
  split; apply pad4_four_digits;
    match goal with
    | |- (_ <= fst (randint 1000 9999 ?g0) <= _)%Z =>
        pose proof (@randint_range 1000 9999 g0); lia
    end.
Qed.

Lemma choices_shape n : forall g,
  String.length (fst (choices n g)) = n /\
  sforall (fun a => is_digit a || is_lower_letter a) (fst (choices n g))
    = true.
Proof.
  induction n as [|n IH]; intros g; cbn [choices].
  - now split.
  - unfold bindR, retR. cbn [fst snd String.length sforall].
    destruct (IH (snd (choice "0"%char ror_alphabet g))) as [H1 H2].
    split; [now rewrite H1|]. rewrite H2, andb_true_r.
    assert (Hall : forallb (fun a => is_digit a || is_lower_letter a)
                           ror_alphabet = true) by reflexivity.
    rewrite forallb_forall in Hall. apply Hall.
    apply choice_In. discriminate.
Qed.

(** X18.  [make_ror] returns [https://ror.org/] followed by exactly nine
    characters, each a decimal digit or a lower-case letter. *)
Theorem ror_format g :
  exists suffix,
    fst (make_ror g) = ("https://ror.org/" ++ suffix)%string /\
    String.length suffix = 9 /\
    sforall (fun a => is_digit a || is_lower_letter a) suffix = true.
Proof.
  unfold make_ror, bindR, retR. cbn [fst snd].
  eexists. split; [reflexivity|]. apply choices_shape.
Qed.

Lemma length_stake n s : String.length (Py.stake n s) <= n.
Proof.
  revert s. induction n as [|n IH]; intros s; simpl; [lia|].
  destruct s as [|a s]; simpl; [lia|]. specialize (IH s). lia.
Qed.

Lemma sforall_stake p n s :
  sforall p s = true -> sforall p (Py.stake n s) = true.
Proof.
  revert s. induction n as [|n IH]; intros s H; simpl; [reflexivity|].
  destruct s as [|a s]; simpl; [reflexivity|].
  simpl in H. apply andb_true_iff in H as [H1 H2].
  now rewrite H1, IH.
Qed.

Lemma upper_ascii_not_lower a : is_lower_letter (Py.upper_ascii a) = false.
Proof. destruct a as [[] [] [] [] [] [] [] []]; reflexivity. Qed.

Lemma sforall_upper s :
  sforall (fun a => negb (is_lower_letter a)) (Py.upper s) = true.
Proof.
  unfold Py.upper. induction s as [|a s IH]; simpl; [reflexivity|].
  now rewrite upper_ascii_not_lower, IH.
Qed.

Lemma length_upper s : String.length (Py.upper s) = String.length s.
Proof.
  unfold Py.upper. induction s as [|a s IH]; simpl; [reflexivity|].
  now rewrite IH.
Qed.

Lemma sforall_app p s t :
  sforall p (s ++ t) = sforall p s && sforall p t.
Proof.
  induction s as [|a s IH]; simpl; [reflexivity|].
  now rewrite IH, andb_assoc.
Qed.

Lemma sforall_initials parts :
  sforall (fun a => negb (is_lower_letter a))
          (String.concat "" (map initial parts)) = true.
Proof.
  induction parts as [|p ps IH]; [reflexivity|].
  assert (Hp : sforall (fun a => negb (is_lower_letter a)) (initial p) = true).
  { destruct p as [|a t]; simpl; [reflexivity|].
    now rewrite upper_ascii_not_lower. }
  cbn [map String.concat]. destruct (map initial ps) as [|q qs] eqn:E.
  - exact Hp.
  - cbn [append]. rewrite !sforall_app, Hp. exact IH.
Qed.

(** X19.  An abbreviation made by [make_abbrev] has at most 6 characters
    and holds no lower-case letter. *)
Theorem abbreviation_bounded name :
  String.length (make_abbrev name) <= 6 /\
  sforall (fun a => negb (is_lower_letter a)) (make_abbrev name) = true.
Proof.
  unfold make_abbrev.
  destruct (List.length (Py.re_split abbrev_sep name) =? 1).
  - split.
    + rewrite length_upper. pose proof (length_stake 4 name). lia.
    + apply sforall_upper.
  - split; [apply length_stake|].
    apply sforall_stake, sforall_initials.
Qed.

(* ------------------------------------------------------------------ *)
(** ** Entity files *)

(** X20.  The file of an entity carries its column list as header, never
    more than [rows] lines, and one cell per column on every line. *)
Theorem entity_file_rectangular pk persons rows ent cols g :
  let f := fst (write_entity pk persons rows ent cols g) in
  header f = cols /\
  List.length (body f) <= Z.to_nat rows /\
  Forall (fun line => List.length line = List.length cols) (body f).
Proof.
  cbv zeta. split; [reflexivity|]. split.
  - unfold write_entity. cbn [fst body]. apply gen_rows_length_le.
  - apply Forall_forall. intros line Hin.
    apply In_nth_error in Hin as (i & Hi).
    now apply write_entity_cells in Hi as [Hlen _].
Qed.

(** X21.  In any entity, a column named [publication_year], [start_year]
    or [end_year] up to letter case receives an integer between 1990 and
    2025. *)
Theorem year_columns_in_range pk persons rows ent cols idx row c g :
  In (Py.lower c) ["publication_year"; "start_year"; "end_year"] ->
  exists y g',
    gen_cell pk persons rows ent cols idx row c g = Ok (VInt y, g') /\
    (1990 <= y <= 2025)%Z.
Proof.
  intros Hc. unfold gen_cell. cbv zeta.
  assert (Hown : String.eqb (Py.lower c) (fk_name ent) = false).
  { rewrite String.eqb_sym. apply PyFacts.eqb_not_id.
    - apply PyFacts.endswith_app.
    - destruct Hc as [<-|[<-|[<-|[]]]]; reflexivity. }
  rewrite Hown. cbn [andb].
  assert (Hyear : exists y g',
            ok (n <- randint 1990 2025 ;; retR (VInt n)) g = Ok (VInt y, g') /\
            (1990 <= y <= 2025)%Z).
  { unfold ok, bindR, retR. eexists _, _. split; [reflexivity|].
    apply randint_range. lia. }
  unfold role_rule.
  destruct Hc as [<-|[<-|[<-|[]]]];
    cbn [String.eqb Ascii.eqb Bool.eqb Py.mem existsb Py.contains
         String.prefix orb andb];
    rewrite ?andb_false_r; cbn [andb orb]; exact Hyear.
Qed.

Lemma year_columns_in_range_witness :
  exists y g',
    gen_cell [] [] 5 "Document" ["Publication_Year"] 0 [] "Publication_Year"
             (const_rng 40) = Ok (VInt y, g') /\
    (1990 <= y <= 2025)%Z.
Proof.
  apply (@year_columns_in_range [] [] 5 "Document" ["Publication_Year"] 0 []
           "Publication_Year" (const_rng 40)).
  now left.
Defined.

(** X22.  In [Document], a [page_end] column that no [page_start] cell
    precedes on the line receives an integer between 2 and 400. *)
Theorem page_end_without_start pk persons rows cols idx row c g :
  Py.lower c = "page_end" ->
  (forall i, Py.index "page_start" (map Py.lower cols) = Some i ->
     List.length row <= i) ->
  exists e g',
    gen_cell pk persons rows "Document" cols idx row c g = Ok (VInt e, g') /\
    (2 <= e <= 400)%Z.
Proof.
  unfold gen_cell. cbv zeta. intros -> Hi.
  change (exists e g',
    (match Py.index "page_start" (map Py.lower cols) with
     | Some ps_idx =>
         match nth_error row ps_idx with
         | Some (VInt start_val) =>
             ok (d <- randint 1 30 ;; retR (VInt (start_val + d)%Z))
         | _ => ok (n <- randint 2 400 ;; retR (VInt n))
         end
     | None => ok (n <- randint 2 400 ;; retR (VInt n))
     end) g = Ok (VInt e, g') /\ (2 <= e <= 400)%Z).
  assert (Hfb : exists e g',
            ok (n <- randint 2 400 ;; retR (VInt n)) g = Ok (VInt e, g') /\
            (2 <= e <= 400)%Z).
  { unfold ok, bindR, retR. eexists _, _. split; [reflexivity|].
    apply randint_range. lia. }
  destruct (Py.index "page_start" (map Py.lower cols)) as [i|]; [|exact Hfb].
  specialize (Hi i eq_refl).
  apply nth_error_None in Hi. rewrite Hi. exact Hfb.
Qed.

Lemma page_end_without_start_witness :
  exists e g',
    gen_cell [] [] 3 "Document" ["page_end"; "page_start"] 0 [] "page_end"
             (const_rng 9) = Ok (VInt e, g') /\
    (2 <= e <= 400)%Z.
Proof.
  apply (@page_end_without_start [] [] 3 ["page_end"; "page_start"] 0 []
           "page_end" (const_rng 9)).
  - reflexivity.
  - intros i [= <-]. simpl. lia.
Defined.

(* ------------------------------------------------------------------ *)
(** ** Faults of a line *)

Lemma gen_row_from_fault pk persons rows ent cols idx cs : forall row g f,
  gen_row_from pk persons rows ent cols idx cs row g = Raise f ->
  exists c row' g',
    In c cs /\ gen_cell pk persons rows ent cols idx row' c g' = Raise f.
Proof.
  induction cs as [|c cs IH]; intros row g f; cbn [gen_row_from];
    [discriminate|].
  destruct (gen_cell pk persons rows ent cols idx row c g) as [[v g1]|f0] eqn:E.
  - intros H. apply IH in H as (c' & row' & g' & Hin & H).
    exists c', row', g'. split; [now right | exact H].
  - intros [= <-]. exists c, row, g. split; [now left | exact E].
Qed.

(** X23.  Synthesizing a line faults only in entity [Person], with the
    [NameError] on [PREFERRED_TITLES] or [PERSON_TYPES], and only when one
    of its columns is named [preferred_title] or [type] up to letter
    case. *)
Theorem row_fault_is_person_vocabulary pk persons rows ent cols idx g f :
  gen_row pk persons rows ent cols idx g = Raise f ->
  ent = "Person" /\
  (f = NameError "PREFERRED_TITLES" \/ f = NameError "PERSON_TYPES") /\
  exists c, In c cols /\ faulty_column c.
Proof.
  unfold gen_row. intros H.
  apply gen_row_from_fault in H as (c & row' & g' & Hin & Hcell).
  apply gen_cell_fault in Hcell as (-> & Hf).
  split; [reflexivity|].
  destruct Hf as [[Hc ->]|[Hc ->]]; (split; [auto|]); exists c;
    (split; [exact Hin|]); [now left | now right].
Qed.

Lemma row_fault_is_person_vocabulary_witness :
  "Person" = "Person" /\
  (NameError "PERSON_TYPES" = NameError "PREFERRED_TITLES" \/
   NameError "PERSON_TYPES" = NameError "PERSON_TYPES") /\
  exists c, In c ["person_id"; "Type"] /\ faulty_column c.
Proof.
  apply (@row_fault_is_person_vocabulary [] [] 1 "Person"
           ["person_id"; "Type"] 0 (const_rng 0) (NameError "PERSON_TYPES")).
  reflexivity.
Defined.

(** X24.  In every entity other than [Person], and in [Person] when none
    of its columns is named [preferred_title] or [type], synthesizing a
    line yields one cell per column. *)
Theorem row_synthesized_unless_person_vocabulary pk persons rows ent cols
        idx g :
  (ent = "Person" -> forall c, In c cols -> ~ faulty_column c) ->
  exists row g',
    gen_row pk persons rows ent cols idx g = Ok (row, g') /\
    List.length row = List.length cols.
Proof.
  intros Hcols.
  destruct (gen_row pk persons rows ent cols idx g) as [[row g']|f] eqn:E.
  - exists row, g'. split; [reflexivity|].
    unfold gen_row in E.
    apply gen_row_from_cells in E as (vs & -> & Hlen & _). exact Hlen.
  - exfalso. unfold gen_row in E.
    apply gen_row_from_fault in E as (c & row' & g' & Hin & Hcell).
    apply gen_cell_fault in Hcell as (He & [[Hc _]|[Hc _]]);
      apply (Hcols He c Hin); [now left | now right].
Qed.

Lemma row_synthesized_unless_person_vocabulary_witness :
  exists row g',
    gen_row [] [] 2 "Person" ["person_id"; "orcid"] 0 (const_rng 5)
      = Ok (row, g') /\
    List.length row = List.length ["person_id"; "orcid"].
Proof.
  apply (@row_synthesized_unless_person_vocabulary [] [] 2 "Person"
           ["person_id"; "orcid"] 0 (const_rng 5)).
  intros _ c [<-|[<-|[]]] [H|H]; discriminate H.
Defined.

(* ------------------------------------------------------------------ *)
(** ** Join tables *)

Lemma keys_or_one_nonempty pk ent : keys_or_one pk ent <> [].
Proof. unfold keys_or_one. destruct (pk_get pk ent); discriminate. Qed.

Lemma cover_pairs_from_pools l r a b :
  In (a, b) (cover_pairs l r) -> In a l /\ In b r.
Proof.
  unfold cover_pairs. intros H. apply in_map_iff in H as (i & [= <- <-] & Hi).
  apply in_seq in Hi.
  split; apply nth_In; apply Nat.mod_upper_bound; lia.
Qed.

Lemma pad_pairs_from_pools l r n : forall pairs g a b,
  l <> [] -> r <> [] ->
  (forall a b, In (a, b) pairs -> In a l /\ In b r) ->
  In (a, b) (fst (pad_pairs n l r pairs g)) -> In a l /\ In b r.
Proof.
  induction n as [|n IH]; intros pairs g a b Hl Hr Hp; cbn [pad_pairs].
  - apply Hp.
  - unfold bindR. apply IH; [exact Hl | exact Hr|].
    intros a' b' Hin. apply in_app_or in Hin as [Hin|[[= <- <-]|[]]].
    + now apply Hp.
    + split; apply nth_In; apply Nat.mod_upper_bound;
        [destruct l | destruct r]; simpl; congruence || lia.
Qed.

Lemma In_firstn {A} (x : A) n l : In x (firstn n l) -> In x l.
Proof.
  intros H. rewrite <- (firstn_skipn n l). apply in_or_app. now left.
Qed.

(** X25.  For [rows >= 0] the join table of a many-to-many edge has
    exactly [rows] lines, and every line is a pair of integers, the first
    from the left endpoint's key pool and the second from the right
    endpoint's (the pool of an endpoint without keys being [1]). *)
Theorem join_table_shape pk rows r g :
  (0 <= rows)%Z ->
  let f := fst (write_join pk rows r g) in
  List.length (body f) = Z.to_nat rows /\
  forall line, In line (body f) ->
    exists a b,
      line = [VInt a; VInt b] /\
      In a (keys_or_one pk (left r)) /\ In b (keys_or_one pk (right r)).
Proof.
  intros Hrows f. split; [now apply write_join_rows|].
  unfold f, write_join, join_pairs, bindR, retR. cbn [fst snd body].
  intros line Hin. apply in_map_iff in Hin as ([a b] & <- & Hin).
  exists a, b. split; [reflexivity|]. cbn [fst snd].
  unfold slice_to in Hin. destruct (Z.leb_spec 0 rows); [|lia].
  apply In_firstn in Hin.
  eapply pad_pairs_from_pools; [apply keys_or_one_nonempty
                               | apply keys_or_one_nonempty | | exact Hin].
  intros a' b'. apply cover_pairs_from_pools.
Qed.

Lemma join_table_shape_witness :
  let f := fst (write_join [("A", [1; 2]%Z)] 3 (mkRel "A" "}o--o{" "B")
                           (const_rng 1)) in
  List.length (body f) = Z.to_nat 3 /\
  forall line, In line (body f) ->
    exists a b,
      line = [VInt a; VInt b] /\
      In a (keys_or_one [("A", [1; 2]%Z)] "A") /\
      In b (keys_or_one [("A", [1; 2]%Z)] "B").
Proof.
  apply (@join_table_shape [("A", [1; 2]%Z)] 3 (mkRel "A" "}o--o{" "B")
           (const_rng 1)).
  lia.
Defined.

(** X26.  When both endpoints of a many-to-many edge are entities with a
    column ending in [_id], every key from 1 to [rows] is paired with itself
    in the join table: all keys of both endpoints are covered. *)
Theorem join_table_covers_keyed_endpoints ents rows r g lc rc lid rid v :
  NoDup (keys ents) ->
  In (left r, lc) ents -> ent_id_col (left r) lc = Some lid ->
  In (right r, rc) ents -> ent_id_col (right r) rc = Some rid ->
  (1 <= v <= rows)%Z ->
  In [VInt v; VInt v]
     (body (fst (write_join (pk_values_of ents rows) rows r g))).
Proof.
  intros Hnd Hl Hlid Hr Hrid Hv.
  apply join_covers_keyed_endpoints.
  - rewrite (@pk_get_of_entity ents rows (left r) lc Hnd Hl).
    exact (@pk_seq_detected (left r) lc rows lid Hlid).
  - rewrite (@pk_get_of_entity ents rows (right r) rc Hnd Hr).
    exact (@pk_seq_detected (right r) rc rows rid Hrid).
  - now apply In_one_to.
Qed.

Lemma join_table_covers_keyed_endpoints_witness :
  In [VInt 2; VInt 2]
     (body (fst (write_join
                   (pk_values_of [("A", ["a_id"]); ("B", ["b_id"])] 2) 2
                   (mkRel "A" "}o--o{" "B") (const_rng 0)))).
Proof.
  apply (@join_table_covers_keyed_endpoints [("A", ["a_id"]); ("B", ["b_id"])]
           2 (mkRel "A" "}o--o{" "B") (const_rng 0) ["a_id"] ["b_id"]
           "a_id" "b_id" 2%Z).
  - repeat constructor; [intros [[=]|[]] | intros []].
  - now left.
  - reflexivity.
  - right. now left.
  - reflexivity.
  - lia.
Defined.

Lemma keys_or_one_negative ents rows e :
  (rows < 0)%Z -> keys_or_one (pk_values_of ents rows) e = [1%Z].
Proof.
  intros H. unfold keys_or_one.
  destruct (pk_get_cases ents rows e) as [E|E]; rewrite E; [reflexivity|].
  unfold one_to. now replace (Z.to_nat rows) with 0 by lia.
Qed.

(** X27.  A negative row count behaves like zero: no file of the run has
    a data line. *)
Theorem negative_rows_headers_only ents rels rows g :
  (rows < 0)%Z ->
  Forall (fun f => body f = []) (fst (generate_csvs ents rels rows g)).
Proof.
  intros Hneg. apply Forall_forall. intros f Hin.
  apply generate_csvs_files in Hin as
    [(e & c & persons & g1 & _ & ->)|(r & g1 & _ & _ & ->)].
  - unfold write_entity. cbn [fst body].
    now replace (Z.to_nat rows) with 0 by lia.
  - unfold write_join, join_pairs, bindR, retR. cbn [fst snd body].
    rewrite !keys_or_one_negative by assumption.
    change (cover_pairs [1%Z] [1%Z]) with [(1%Z, 1%Z)].
    cbn [List.length].
    replace (Z.to_nat (rows - Z.of_nat 1)) with 0 by lia.
    cbn [pad_pairs retR fst]. unfold slice_to.
    destruct (Z.leb_spec 0 rows); [lia|]. cbn [List.length].
    replace (Z.to_nat (Z.of_nat 1 + rows)) with 0 by lia.
    reflexivity.
Qed.

Lemma negative_rows_headers_only_witness :
  Forall (fun f => body f = [])
         (fst (generate_csvs (fst (parse_puml mn_diagram))
                             (snd (parse_puml mn_diagram)) (-2)
                             (const_rng 0))).
Proof.
  apply (@negative_rows_headers_only (fst (parse_puml mn_diagram))
           (snd (parse_puml mn_diagram)) (-2) (const_rng 0)).
  lia.
Defined.

(* ------------------------------------------------------------------ *)
(** ** Authorship names, edge tokens, cell types *)

(** X28.  With the registry of the run and a non-empty key sequence for
    [Person], the cell under [display_author_name] of [Authorship] is the
    first name, a blank and the last name of one registered person, whose
    key belongs to the sequence. *)
Theorem display_name_is_registered_person ents pk rows g0 cols0 pids
        cols idx row c g :
  dget ents "Person" = Some cols0 ->
  dget pk "Person" = Some pids ->
  pids <> [] ->
  Py.lower c = "display_author_name" ->
  exists p g',
    gen_cell pk (fst (make_persons ents pk g0)) rows "Authorship" cols idx
             row c g
      = Ok (VStr (firstname p ++ " " ++ lastname p)%string, g') /\
    In (person_id p) pids /\
    dget (fst (make_persons ents pk g0)) (Py.str_of_Z (person_id p)) = Some p.
Proof.
  intros He Hp Hne Hc. unfold gen_cell. cbv zeta. rewrite Hc.
  change (exists p g',
    ok (pid <- pick_pk pk rows "Person" ;;
        match dget (fst (make_persons ents pk g0)) (Py.str_of_Z pid) with
        | Some p => retR (VStr (firstname p ++ " " ++ lastname p)%string)
        | None =>
            fn <- choice "" FIRSTNAMES ;; ln <- choice "" LASTNAMES ;;
            retR (VStr (fn ++ " " ++ ln)%string)
        end) g
      = Ok (VStr (firstname p ++ " " ++ lastname p)%string, g') /\
    In (person_id p) pids /\
    dget (fst (make_persons ents pk g0)) (Py.str_of_Z (person_id p)) = Some p).
  unfold ok, bindR.
  set (pid := fst (pick_pk pk rows "Person" g)).
  assert (Hpid : In pid pids).
  { unfold pid, pick_pk, pk_get. rewrite Hp.
    destruct pids as [|z l] eqn:E; [congruence|].
    rewrite <- E. apply choice_In. congruence. }
  unfold make_persons. rewrite He, Hp.
  destruct (@make_persons_loop_inv pids [] g0) as (I1 & _ & I3);
    [intros key p; discriminate|].
  specialize (I3 pid Hpid).
  destruct (dget (fst (make_persons_loop pids [] g0)) (Py.str_of_Z pid))
    as [p|] eqn:E; [|congruence].
  destruct (I1 _ _ E) as (Hk & _).
  apply str_of_Z_inj in Hk. subst pid.
  exists p. eexists. unfold retR. split; [reflexivity|].
  rewrite <- Hk in *. split; [exact Hpid | exact E].
Qed.

Lemma display_name_is_registered_person_witness :
  exists p g',
    gen_cell [("Person", [1; 2]%Z)]
             (fst (make_persons [("Person", ["person_id"])]
                                [("Person", [1; 2]%Z)] (const_rng 2)))
             2 "Authorship" ["display_author_name"] 0 []
             "display_author_name" (const_rng 1)
      = Ok (VStr (firstname p ++ " " ++ lastname p)%string, g') /\
    In (person_id p) [1; 2]%Z /\
    dget (fst (make_persons [("Person", ["person_id"])]
                            [("Person", [1; 2]%Z)] (const_rng 2)))
         (Py.str_of_Z (person_id p)) = Some p.
Proof.
  apply (@display_name_is_registered_person [("Person", ["person_id"])]
           [("Person", [1; 2]%Z)] 2 (const_rng 2) ["person_id"] [1; 2]%Z
           ["display_author_name"] 0 [] "display_author_name" (const_rng 1)).
  - reflexivity.
  - reflexivity.
  - discriminate.
  - reflexivity.
Defined.

Lemma split_runs_no_sep sep s : forall cur in_run piece,
  sforall (fun a => negb (sep a)) cur = true ->
  In piece (Py.split_runs sep s cur in_run) ->
  sforall (fun a => negb (sep a)) piece = true.
Proof.
  induction s as [|a s IH]; intros cur in_run piece Hcur; cbn [Py.split_runs].
  - now intros [<-|[]].
  - destruct (sep a) eqn:E.
    + destruct in_run.
      * now apply IH.
      * intros [<-|H]; [exact Hcur|]. now apply IH in H.
    + apply IH. rewrite sforall_app, Hcur. simpl. now rewrite E.
Qed.

Lemma parse_line_relations st raw r :
  In r (p_relations (parse_line st raw)) ->
  In r (p_relations st) \/
  exists rest,
    Py.re_split Py.is_space (Py.strip raw)
      = left r :: connector r :: right r :: rest.
Proof.
  assert (Hrel : forall st', In r (p_relations (parse_relation st' (Py.strip raw))) ->
            In r (p_relations st') \/
            exists rest,
              Py.re_split Py.is_space (Py.strip raw)
                = left r :: connector r :: right r :: rest).
  { intros st'. unfold parse_relation.
    destruct (Py.contains (Py.strip raw) "--"); [|now left].
    destruct (Py.re_split Py.is_space (Py.strip raw))
      as [|l [|c [|r0 rest]]]; try (now left).
    cbn [p_relations]. intros H. apply in_app_or in H as [H|[<-|[]]];
      [now left | right; exists rest; reflexivity]. }
  unfold parse_line. cbv zeta.
  destruct (_ || _); [now left|].
  destruct (match_entity (Py.strip raw)); cbn [p_relations]; [now left|].
  destruct (p_current st); [|apply Hrel].
  destruct (Py.startswith (Py.strip raw) "}"); [now left|].
  destruct (Py.contains (Py.strip raw) ":"); [|apply Hrel].
  destruct (_ && _); now left.
Qed.

(** X29.  The three fields of every edge the parser returns are the first
    three white-space-separated tokens of one input line, and hold no
    white space. *)
Theorem parsed_edges_are_tokens lines r :
  In r (snd (parse_puml lines)) ->
  (exists raw rest,
     In raw lines /\
     Py.re_split Py.is_space (Py.strip raw)
       = left r :: connector r :: right r :: rest) /\
  sforall (fun a => negb (Py.is_space a)) (left r) = true /\
  sforall (fun a => negb (Py.is_space a)) (connector r) = true /\
  sforall (fun a => negb (Py.is_space a)) (right r) = true.
Proof.
  intros H.
  assert (Hsrc : exists raw rest,
            In raw lines /\
            Py.re_split Py.is_space (Py.strip raw)
              = left r :: connector r :: right r :: rest).
  { unfold parse_puml, parse_from in H. cbn [snd] in H.
    assert (G : forall st,
              In r (p_relations (fold_left parse_line lines st)) ->
              In r (p_relations st) \/
              exists raw rest,
                In raw lines /\
                Py.re_split Py.is_space (Py.strip raw)
                  = left r :: connector r :: right r :: rest).
    { clear H. induction lines as [|raw rest IH]; intros st Hin; [now left|].
      simpl in Hin. apply IH in Hin as [Hin|(raw' & rest' & Hr & Ht)].
      - apply parse_line_relations in Hin as [Hin|(rest' & Ht)];
          [now left|]. right. exists raw, rest'. split; [now left | exact Ht].
      - right. exists raw', rest'. split; [now right | exact Ht]. }
    destruct (G _ H) as [[]|G']. exact G'. }
  split; [exact Hsrc|]. destruct Hsrc as (raw & rest & _ & Ht).
  assert (Hp : forall piece,
            In piece (Py.re_split Py.is_space (Py.strip raw)) ->
            sforall (fun a => negb (Py.is_space a)) piece = true).
  { intros piece. unfold Py.re_split. now apply split_runs_no_sep. }
  rewrite Ht in Hp.
  repeat split; apply Hp; simpl; auto.
Qed.

Lemma parsed_edges_are_tokens_witness :
  (exists raw rest,
     In raw person_diagram /\
     Py.re_split Py.is_space (Py.strip raw)
       = "Document" :: "||--o{" :: "Person" :: rest) /\
  sforall (fun a => negb (Py.is_space a)) "Document" = true /\
  sforall (fun a => negb (Py.is_space a)) "||--o{" = true /\
  sforall (fun a => negb (Py.is_space a)) "Person" = true.
Proof.
  apply (@parsed_edges_are_tokens person_diagram
           (mkRel "Document" "||--o{" "Person")).
  vm_compute. now left.
Defined.

Lemma synth_generic_value_not_amount cl g h :
  fst (synth_generic_value cl g) <> VAmount h.
Proof.
  unfold synth_generic_value.
  repeat match goal with
  | |- context [if ?b then _ else _] => destruct b
  end; unfold bindR, retR; cbn [fst]; discriminate.
Qed.

(** X30.  A cell holds a float only in entity [Grant] under the column
    [total_award_amount]; every other cell is an integer or a text. *)
Theorem float_only_in_grant_amount pk persons rows ent cols idx row c g h g' :
  gen_cell pk persons rows ent cols idx row c g = Ok (VAmount h, g') ->
  ent = "Grant" /\ Py.lower c = "total_award_amount".
Proof.
  unfold gen_cell. cbv zeta.
  chain ltac:(first
    [ discriminate
    | unfold ok, bindR, retR; discriminate
    | unfold ok, bindR, retR;
      match goal with
      | |- context [match ?x with Some _ => _ | None => _ end] => destruct x
      end; discriminate
    | unfold ok; intros H; injection H as H;
      apply (f_equal fst) in H; cbn [fst] in H;
      exfalso; exact (synth_generic_value_not_amount _ _ H)
    | intros _; split_guards; auto ]).
Qed.

Lemma float_only_in_grant_amount_witness :
  "Grant" = "Grant" /\ Py.lower "Total_Award_Amount" = "total_award_amount".
Proof.
  apply (@float_only_in_grant_amount [] [] 1 "Grant" ["Total_Award_Amount"] 0
           [] "Total_Award_Amount" (const_rng 0) 50%Z
           (mkRng (fun _ => 0) 1)).
  reflexivity.
Defined.
